(** * petroflow: batch dispatch, filtering assembly and core-image crops

    A shallow embedding of [well_logs/core/well_batch.py] and
    [well_logs/core/core_images.py], and the properties of the batch
    dispatch / assembly engine proved about it.

    Python objects are values of [pyobj]; an instance is its attribute
    dictionary; a method is a computation in the state-and-exception monad
    [py], where a raised exception keeps the mutations made before it. *)

From Stdlib Require Import ZArith Lia QArith_base Qround Ascii.
From stdpp Require Import base option list gmap strings pretty.

Set Warnings "-register-all,-clear-no-such-hyp".
Open Scope string_scope.
Open Scope nat_scope.
Open Scope list_scope.

(** ** Python values, exceptions and the [py] monad *)

Module Py.

(** Exception classes met in the two source files. *)
Inductive exn :=
  | SkipWellException (msg : string)
  | SkipBatchException
  | RuntimeError (msg : string)
  | ValueError (msg : string)
  | KeyError (k : string)
  | IndexError (msg : string)
  | AttributeError (name : string)
  | TypeError (msg : string)
  | OtherException (cls msg : string).

(** Python objects. [PObj] is an instance of a class that lives outside the
    two source files (a [Well], a decoded image); [PIndex] is a
    [DatasetIndex], carrying the path table when it is a [FilesIndex];
    [PArr] is a list or a 1-D ndarray of objects. *)
Inductive pyobj {O : Type} :=
  | PNone
  | PInt (z : Z)
  | PStr (s : string)
  | PExn (e : exn)
  | PObj (o : O)
  | PIndex (keys : list string) (paths : option (gmap string string))
  | PArr (l : list pyobj).
Arguments pyobj : clear implicits.

Inductive outcome (A : Type) :=
  | Ok (a : A)
  | Raise (e : exn).
Arguments Ok {A} a.
Arguments Raise {A} e.

Definition and_then {A B} (o : outcome A) (k : A -> outcome B) : outcome B :=
  match o with
  | Ok a => k a
  | Raise e => Raise e
  end.

(** A computation over a mutable state [S]: the state is returned on both
    exits, so what was written before a [raise] stays written. *)
Definition py (S A : Type) : Type := S -> outcome A * S.

Definition ret {S A} (a : A) : py S A := fun s => (Ok a, s).
Definition raise {S A} (e : exn) : py S A := fun s => (Raise e, s).
Definition bind {S A B} (c : py S A) (k : A -> py S B) : py S B :=
  fun s => match c s with
           | (Ok a, s') => k a s'
           | (Raise e, s') => (Raise e, s')
           end.
Definition lift {S A} (o : outcome A) : py S A := fun s => (o, s).
Definition get {S} : py S S := fun s => (Ok s, s).
Definition modify {S} (f : S -> S) : py S unit := fun s => (Ok tt, f s).

(** [try: c except Exception as e: e], as the dispatcher wraps every task. *)
Definition capture {S O} (c : py S (pyobj O)) : py S (pyobj O) :=
  fun s => match c s with
           | (Ok v, s') => (Ok v, s')
           | (Raise e, s') => (Ok (PExn e), s')
           end.

(** [for x in xs: body x] *)
Fixpoint for_each {S A} (xs : list A) (body : A -> py S unit) : py S unit :=
  match xs with
  | [] => ret tt
  | x :: rest => bind (body x) (fun _ => for_each rest body)
  end.

(** [[f(x) for x in xs]] with an effectful [f]. *)
Fixpoint for_list {S A B} (f : A -> py S B) (xs : list A) : py S (list B) :=
  match xs with
  | [] => ret []
  | x :: rest =>
      bind (f x) (fun y => bind (for_list f rest) (fun ys => ret (y :: ys)))
  end.

(** [[f(x) for x in xs]], stopping at the first exception. *)
Fixpoint traverse {A B} (f : A -> outcome B) (xs : list A) : outcome (list B) :=
  match xs with
  | [] => Ok []
  | x :: rest =>
      match f x with
      | Ok y => match traverse f rest with
                | Ok ys => Ok (y :: ys)
                | Raise e => Raise e
                end
      | Raise e => Raise e
      end
  end.

(** [keeps R c]: whatever the outcome of [c], the state it leaves is related
    by [R] to the state it started from. *)
Definition keeps {S A} (R : S -> S -> Prop) (c : py S A) : Prop :=
  forall s, R s (snd (c s)).

(** The object a captured outcome stands for: the value returned, or the
    exception raised. *)
Definition captured {O} (o : outcome (pyobj O)) : pyobj O :=
  match o with
  | Ok v => v
  | Raise e => PExn e
  end.

(** [isinstance(res, Exception)] *)
Definition is_exception {O} (res : pyobj O) : bool :=
  match res with PExn _ => true | _ => false end.

(** [len(l)] and [l[i]] on a list or array object. *)
Definition len {O} (v : pyobj O) : outcome nat :=
  match v with
  | PArr l => Ok (length l)
  | PIndex ks _ => Ok (length ks)
  | _ => Raise (TypeError "object has no len()")
  end.

Definition subscript {O} (v : pyobj O) (i : nat) : outcome (pyobj O) :=
  match v with
  | PArr l => match l !! i with
              | Some x => Ok x
              | None => Raise (IndexError "index out of range")
              end
  | _ => Raise (TypeError "object is not subscriptable")
  end.

(** [arr[mask]] for a boolean ndarray [mask]: numpy refuses a mask whose
    length differs from the array's. *)
Fixpoint select {A} (l : list A) (mask : list bool) : list A :=
  match l, mask with
  | x :: l', true :: m' => x :: select l' m'
  | _ :: l', false :: m' => select l' m'
  | _, _ => []
  end.

Definition boolean_index {A} (l : list A) (mask : list bool) : outcome (list A) :=
  if decide (length l = length mask) then Ok (select l mask)
  else Raise (IndexError "boolean index did not match indexed array").

(** [~mask]: an array built from an empty list has dtype float64, on which
    numpy's invert is not defined. *)
Definition invert (mask : list bool) : outcome (list bool) :=
  match mask with
  | [] => Raise (TypeError "ufunc 'invert' not supported for the input types")
  | _ => Ok (negb <$> mask)
  end.

(** [sum(mask)] *)
Definition count_true (mask : list bool) : nat :=
  length (filter (fun b => b = true) mask).

End Py.

Import Py.

Notation "'let*' x ':=' c 'in' k" := (bind c (fun x => k))
  (at level 10, x pattern, c at level 100, k at level 200, only parsing).
Notation "'let?' x ':=' o 'in' k" := (and_then o (fun x => k))
  (at level 10, x pattern, o at level 100, k at level 200, only parsing).
Notation "c ';;' k" := (bind c (fun _ => k))
  (at level 100, k at level 200, right associativity, only parsing).

(** ** [os.path] on a POSIX system *)

Module posixpath.

(** A Python [str], as the sequence of its characters. *)
Definition str : Type := list ascii.

Definition sep : ascii := "/"%char.

(** [s.rfind(c)]: the index of the last [c] in [s], [-1] if there is none. *)
Fixpoint rfind_from (c : ascii) (s : str) (i : nat) (found : Z) : Z :=
  match s with
  | [] => found
  | x :: s' => rfind_from c s' (S i) (if decide (x = c) then Z.of_nat i else found)
  end.

Definition rfind (c : ascii) (s : str) : Z := rfind_from c s 0 (-1).

(** [s.rstrip(c)] *)
Fixpoint rstrip (c : ascii) (s : str) : str :=
  match s with
  | [] => []
  | x :: s' =>
      match rstrip c s' with
      | [] => if decide (x = c) then [] else [x]
      | r => x :: r
      end
  end.

(** [posixpath.split(p)] *)
Definition split (p : str) : str * str :=
  let i := Z.to_nat (rfind sep p + 1) in
  let head := take i p in
  let tail := drop i p in
  if decide (head ≠ [] ∧ head ≠ replicate (length head) sep)
  then (rstrip sep head, tail)
  else (head, tail).

(** [posixpath.join(a, b)] *)
Definition join (a b : str) : str :=
  if decide (head b = Some sep) then b
  else if decide (a = [] ∨ last a = Some sep) then a ++ b
  else a ++ sep :: b.

End posixpath.

(** ** The batch engine the two classes inherit from *)

Module Batchflow.
Section Batch.
Context {O : Type}.
Local Abbreviation obj := (pyobj O).

(** What a call writes to the console. *)
Inductive event :=
  | Print (v : obj)
  | PrintTb (v : obj).

(** The running state of a method call: the attribute dictionary of
    [self] and the console. *)
Record world := World { self : gmap string obj; console : list event }.

Definition getattr_self (name : string) : py world obj :=
  fun w => match self w !! name with
           | Some v => (Ok v, w)
           | None => (Raise (AttributeError name), w)
           end.

Definition setattr_self (name : string) (v : obj) : py world unit :=
  modify (fun w => World (<[name := v]> (self w)) (console w)).

Definition emit (e : event) : py world unit :=
  modify (fun w => World (self w) (console w ++ [e])).

(** Modelled from the spec: [DatasetIndex.indices] of batchflow, the
    ordered sequence of unique keys of an Index. *)
Definition indices_of (idx : obj) : outcome (list string) :=
  match idx with
  | PIndex ks _ => Ok ks
  | _ => Raise (AttributeError "indices")
  end.

(** [self.indices] *)
Definition indices : py world (list string) :=
  let* idx := getattr_self "index" in lift (indices_of idx).

(** [len(self)], which batchflow defines as [len(self.index)]. *)
Definition len_self : py world nat :=
  let* idx := getattr_self "index" in lift (len idx).

(** Modelled from the spec: [Index.subset] / [create_subset] of
    batchflow: a new Index that holds the given keys in the given order
    (a [FilesIndex] keeps its path table). *)
Definition create_subset (idx : obj) (keys : list string) : outcome obj :=
  match idx with
  | PIndex _ paths => Ok (PIndex keys paths)
  | _ => Raise (AttributeError "create_subset")
  end.

(** Modelled from the spec: [DatasetIndex.get_pos] of batchflow: the
    position of a key in the Index (keys are unique, so there is one); an
    unknown key is a [KeyError]. *)
Definition find_pos (ks : list string) (index : string) : outcome nat :=
  match list_find (fun k => k = index) ks with
  | Some (p, _) => Ok p
  | None => Raise (KeyError index)
  end.

(** Modelled from the spec: [Batch.get_pos(data, component, index)] of
    batchflow with [data=None], which is how both classes call it: the
    position of [index] in [self.index], whatever the component. *)
Definition get_pos (component : string) (index : string) : py world nat :=
  let* ks := indices in lift (find_pos ks index).

(** Modelled from the spec: [any_action_failed] of batchflow: some result
    is a captured exception. *)
Definition any_action_failed (results : list obj) : bool :=
  existsb is_exception results.

(** Modelled from the spec: [Batch.get_errors] of batchflow: the captured
    exceptions of a result list, [None] when there are none. *)
Definition get_errors (results : list obj) : obj :=
  match filter (fun r => is_exception r = true) results with
  | [] => PNone
  | errors => PArr errors
  end.

(** *** The dispatcher *)

(** Modelled from the spec: the concurrency modes of the Dispatcher. *)
Inductive mode := Sequential | ThreadPool | ProcessPool.

(** Modelled from the spec: the order in which the tasks of one dispatch
    complete. [sched] is the scheduler's choice, a list of positions; a
    position it names twice counts once, and the tasks it leaves out
    complete afterwards in submission order, since every task runs to
    completion. The sequential mode has no choice. *)
Definition completion_order (m : mode) (n : nat) (sched : list nat) : list nat :=
  match m with
  | Sequential => seq 0 n
  | _ =>
      let s := remove_dups (filter (fun p => p < n) sched) in
      s ++ list_difference (seq 0 n) s
  end.

(** Modelled from the spec: one task of a dispatch. An exception raised
    inside it is caught and becomes the task's result; in a process pool
    the task works on its own copy of the batch. *)
Definition run_task (m : mode) (c : py world obj) : py world obj :=
  match m with
  | ProcessPool => fun w => (fst (capture c w), w)
  | _ => capture c
  end.

(** The result the dispatcher records for a task that runs from state [s]:
    the value returned, or the exception raised. *)
Definition task_result (c : py world obj) (s : world) : obj :=
  match fst (c s) with
  | Ok v => v
  | Raise e => PExn e
  end.

(** Modelled from the spec: tasks complete in [order]; each stores its
    result in the slot of the position it was submitted for. A task is one
    step here: the effects of two tasks on the batch do not interleave. *)
Fixpoint run_tasks (m : mode) (f : string -> py world obj) (ks : list string)
    (order : list nat) (slots : list (option obj)) : py world (list (option obj)) :=
  match order with
  | [] => ret slots
  | p :: rest =>
      match ks !! p with
      | Some k =>
          let* r := run_task m (f k) in
          run_tasks m f ks rest (<[p := Some r]> slots)
      | None => run_tasks m f ks rest slots
      end
  end.

(** Modelled from the spec: [dispatch(index_positions, operation, mode)]:
    one task per key of [self.indices], the results collected by input
    position once every task has completed. *)
Definition dispatch (m : mode) (sched : list nat) (f : string -> py world obj)
    : py world (list obj) :=
  let* ks := indices in
  let n := length ks in
  let* slots := run_tasks m f ks (completion_order m n sched) (replicate n None) in
  ret (omap id slots).

(** Modelled from the spec: the [inbatch_parallel(init="indices", post=...,
    target=...)] decorator of batchflow: dispatch, then hand the ordered
    results to the assembler [post]. With no assembler named, a captured
    failure surfaces to the caller as a hard error and otherwise the batch
    is returned as the tasks left it. *)
Definition inbatch_parallel (m : mode) (post : option (list obj -> py world unit))
    (sched : list nat) (f : string -> py world obj) : py world unit :=
  let* results := dispatch m sched f in
  match post with
  | Some post_fn => post_fn results
  | None =>
      if any_action_failed results then
        let errors := filter (fun r => is_exception r = true) results in
        emit (Print (PArr errors));;
        emit (PrintTb (default PNone (head errors)));;
        raise (RuntimeError "Parallel action failed")
      else ret tt
  end.

End Batch.
Arguments event : clear implicits.
Arguments world : clear implicits.
End Batchflow.

Import Batchflow.

(** ** [well_logs/core/well_batch.py] *)

Module well_batch.
Section WellBatch.
Context {Well Segment : Type}.
Local Abbreviation obj := (pyobj Well).
Local Abbreviation world := (Batchflow.world Well).

(** [*args, **kwargs] *)
Record call_args := CallArgs { args : list obj; kwargs : list (string * obj) }.

(** The [Well] class is imported from [.well]: [Well_getattr name] is
    [getattr(Well, name)], a function of the instance and the forwarded
    arguments; [Well_new path kwargs] is [Well(path, **kwargs)];
    [iter_level] and [segment_getattr] read the segments of a well and
    their attributes. *)
Variable Well_getattr : string -> option (obj -> call_args -> outcome obj).
Variable Well_new : string -> list (string * obj) -> outcome Well.
Variable iter_level : Well -> list Segment.
Variable segment_getattr : Segment -> string -> option obj.

(** NumPy is outside the sources as well: [np_other] is [np.array] on the
    lists for which its result depends on the release, see [np_array]. *)
Variable np_other : list obj -> outcome (list obj).

(** *** [WellDelegatingMeta] *)

(** A batch-level operation [f(self, index, *args, **kwargs)]. *)
Definition method : Type := string -> call_args -> py world obj.

(** What a class body binds a name to: a plain value, a dict of strings
    (such as [targets]), a function, or a function registered by
    [action()(inbatch_parallel(init, post, target)(f))]. *)
Inductive attr :=
  | AValue (v : obj)
  | ADict (d : gmap string string)
  | AFunction (f : method)
  | AAction (init post target : string) (f : method).

(** A base class, as far as the metaclass looks at it:
    [abstractmethods] is [None] when [hasattr(base, "__abstractmethods__")]
    is false. *)
Record class := Class { abstractmethods : option (gset string) }.

Definition delegator (name : string) : method := fun index a =>
  let* pos := get_pos "wells" index in
  match Well_getattr name with
  | Some meth =>
      let* wells := getattr_self "wells" in
      let* well := lift (subscript wells pos) in
      lift (meth well a)
  | None => raise (AttributeError name)
  end.

Definition _make_parallel_action (name target : string) : outcome attr :=
  match Well_getattr name with
  | Some _ => Ok (AAction "indices" "_filter_assemble" target (delegator name))
  | None => Raise (AttributeError name)
  end.

(** The union of the [__abstractmethods__] of the bases that have some. *)
Definition abstract_methods (bases : list class) : gset string :=
  ⋃ (omap abstractmethods bases).

(** The body of the loop of [__new__]; the state is the [namespace] dict,
    which the loop updates in place. *)
Definition bind_method (name method_name : string) : py (gmap string attr) unit :=
  let* namespace := get in
  match namespace !! method_name with
  | Some _ => ret tt
  | None =>
      match namespace !! "targets" with
      | None => raise (KeyError "targets")
      | Some (ADict d) =>
          let target := default "threads" (d !! name) in
          let* act := lift (_make_parallel_action method_name target) in
          modify (fun ns => <[method_name := act]> ns)
      | Some _ => raise (AttributeError "get")
      end
  end.

(** [WellDelegatingMeta.__new__(mcls, name, bases, namespace)]: the state
    on exit is the dictionary of the class that [super().__new__] builds. *)
Definition __new__ (name : string) (bases : list class) : py (gmap string attr) unit :=
  for_each (elements (abstract_methods bases)) (bind_method name).

(** *** [WellBatch] *)

Definition components : list string := ["wells"].

(** [isinstance(res, SkipWellException)] *)
Definition is_skip (res : obj) : bool :=
  match res with PExn (SkipWellException _) => true | _ => false end.

(** A hard failure: a captured exception that is not the Skip signal. *)
Definition hard_failure (res : obj) : Prop :=
  is_exception res = true ∧ is_skip res = false.

(** **** [np.array] of a list

    NumPy gives an array one dtype. An element that is neither a number, a
    string nor a sequence ([None], an exception, a worker; a worker is taken
    to be no sequence) makes the array an object array of one axis, which
    holds the elements of the list as they are (so do the releases before
    1.24 also when sequences stand beside such an element; the later ones
    refuse that mixture). A list of strings and of
    integers of at most 64 bits becomes an integer array when it holds no
    string and a string array when it holds one: a string array stores an
    integer as its decimal string and a string without its trailing NUL
    characters. *)
Definition plain_object (v : obj) : bool :=
  match v with PNone | PExn _ | PObj _ => true | _ => false end.

Definition int64 (z : Z) : bool := bool_decide (- 2 ^ 63 <= z < 2 ^ 63)%Z.

Definition small_scalar (v : obj) : bool :=
  match v with PInt z => int64 z | PStr _ => true | _ => false end.

Definition is_str (v : obj) : bool :=
  match v with PStr _ => true | _ => false end.

Fixpoint strip_nul (s : string) : string :=
  match s with
  | EmptyString => EmptyString
  | String c s' =>
      match strip_nul s' with
      | EmptyString => if decide (c = Ascii.zero) then EmptyString
                       else String c EmptyString
      | r => String c r
      end
  end.

(** An entry of a string array. *)
Definition np_str (v : obj) : obj :=
  match v with
  | PInt z => PStr (pretty z)
  | PStr s => PStr (strip_nul s)
  | _ => v
  end.

(** [np.array(l)], by its entries along the first axis. [np_other] is what
    NumPy makes of the remaining lists, those that hold no plain object but
    a sequence, an Index or an integer of more than 64 bits: nested
    sequences become further axes, and the outcome for ragged ones and for
    large integers differs between the releases of NumPy. *)
Definition np_array (l : list obj) : outcome (list obj) :=
  if existsb plain_object l then Ok l
  else if forallb small_scalar l then
    Ok (if existsb is_str l then np_str <$> l else l)
  else np_other l.

Definition _filter_assemble (results : list obj) : py world unit :=
  let skip_mask := is_skip <$> results in
  let* n := len_self in
  if decide (count_true skip_mask = n) then raise SkipBatchException else
  let* results := lift (np_array results) in
  let* keep := lift (invert skip_mask) in
  let* results := lift (boolean_index results keep) in
  if any_action_failed results then
    let errors := get_errors results in
    emit (Print errors);;
    let* first := lift (subscript errors 0) in
    emit (PrintTb first);;
    raise (RuntimeError "Could not assemble the batch")
  else
    let* idx := getattr_self "index" in
    let* ks := indices in
    let* keep := lift (invert skip_mask) in
    let* kept_keys := lift (boolean_index ks keep) in
    let* new_index := lift (create_subset idx kept_keys) in
    setattr_self "index" new_index;;
    setattr_self "wells" (PArr results).

(** The [elif] and [else] branches of [_init_wells]:
    [self.index.get_fullpath(index)] when [self.index] is a [FilesIndex],
    and a [ValueError] when it is not. *)
Definition index_path (idx : obj) (index : string) : outcome string :=
  match idx with
  | PIndex _ (Some paths) =>
      match paths !! index with
      | Some p => Ok p
      | None => Raise (KeyError index)
      end
  | _ => Raise (ValueError "Source path is not specified")
  end.

(** The body of [_init_wells], before the decorator. [src], when given, maps
    an item's key to its path. *)
Definition _init_wells (src : option (gmap string string))
    (kw : list (string * obj)) (index : string) : py world obj :=
  let* path :=
    match src with
    | Some s => match s !! index with
                | Some p => ret p
                | None => raise (KeyError index)
                end
    | None => let* idx := getattr_self "index" in lift (index_path idx index)
    end in
  let* well := lift (Well_new path kw) in
  let* i := get_pos "wells" index in
  let* wells := getattr_self "wells" in
  match wells with
  | PArr l =>
      if decide (i < length l) then
        setattr_self "wells" (PArr (<[i := PObj well]> l));; ret PNone
      else raise (IndexError "index out of bounds")
  | _ => raise (TypeError "object does not support item assignment")
  end.

(** What [_init_wells] builds for the key [k] of the Index [idx]: the
    worker [Well(path, **kwargs)] at the item's path, or the exception that
    resolving the path or building the worker raises. *)
Definition construct (src : option (gmap string string)) (idx : obj)
    (kw : list (string * obj)) (k : string) : outcome Well :=
  let? path :=
    match src with
    | Some s => match s !! k with
                | Some p => Ok p
                | None => Raise (KeyError k)
                end
    | None => index_path idx k
    end in
  Well_new path kw.

(** What the task of an item leaves in the result list and in [wells]. *)
Definition init_result (c : outcome Well) : obj :=
  match c with Ok _ => PNone | Raise e => PExn e end.
Definition init_cell (c : outcome Well) : obj :=
  match c with Ok well => PObj well | Raise _ => PNone end.

(** [WellBatch.__init__(self, index, preloaded=None, src=..., **kwargs)].
    [_init_wells] is decorated with
    [inbatch_parallel(init="indices", target="threads")], with no [post].
    [preloaded], when given, is a tuple whose first entry maps keys to
    wells. [sched] is the thread scheduler's choice. *)
Definition __init__ (sched : list nat) (index : obj)
    (preloaded : option (list (gmap string obj)))
    (src : option (gmap string string)) (kw : list (string * obj)) : py world unit :=
  setattr_self "index" index;;
  match preloaded with
  | None =>
      let* n := len_self in
      setattr_self "wells" (PArr (replicate n PNone));;
      inbatch_parallel ThreadPool None sched (_init_wells src kw)
  | Some pre =>
      let* ks := lift (indices_of index) in
      let* wells := lift (traverse (fun k =>
        match pre !! 0 with
        | None => Raise (IndexError "tuple index out of range")
        | Some d => match d !! k with
                    | Some w => Ok w
                    | None => Raise (KeyError k)
                    end
        end) ks) in
      setattr_self "wells" (PArr wells)
  end.

(** [src] and [dst] of [get_crops]: "str or iterable". *)
Inductive str_or_iterable :=
  | Str (s : string)
  | Iterable (l : list string).

(** Modelled from the spec: [to_list] of [.utils]: a single name becomes a
    one-element list, a list of names stays as it is. *)
Definition to_list (x : str_or_iterable) : list string :=
  match x with
  | Str s => [s]
  | Iterable l => l
  end.

(** [[getattr(segment, attr_from) for segment in well.iter_level()]] *)
Definition well_crops (attr_from : string) (well : obj) : outcome obj :=
  match well with
  | PObj w =>
      match traverse (fun segment =>
              match segment_getattr segment attr_from with
              | Some v => Ok v
              | None => Raise (AttributeError attr_from)
              end) (iter_level w) with
      | Ok vs => Ok (PArr vs)
      | Raise e => Raise e
      end
  | _ => Raise (AttributeError "iter_level")
  end.

Definition get_crops (src dst : str_or_iterable) : py world unit :=
  let src := to_list src in
  let dst := to_list dst in
  if decide (length src ≠ length dst) then
    raise (ValueError ("'src' and 'dst' must be of the same length but "
                       +:+ pretty (length src) +:+ " and "
                       +:+ pretty (length dst) +:+ " were given"))
  else
    for_each (zip src dst) (fun '(attr_from, attr_to) =>
      let* wells := getattr_self "wells" in
      match wells with
      | PArr l =>
          let* crops := lift (traverse (well_crops attr_from) l) in
          let* crops := lift (np_array crops) in
          setattr_self attr_to (PArr crops)
      | _ => raise (TypeError "object is not iterable")
      end).

(** Calling an operation that [_make_parallel_action] registered:
    [inbatch_parallel(init="indices", post="_filter_assemble", target=...)]
    dispatches [f(self, index, *args, **kwargs)] over the Index in the mode
    of [target] and hands the results to [self._filter_assemble]. *)
Definition call_action (m : mode) (sched : list nat) (f : method) (a : call_args)
    : py world unit :=
  inbatch_parallel m (Some _filter_assemble) sched (fun index => f index a).

(** [[getattr(segment, attr) for segment in well.iter_level()]] on a loaded
    well all of whose segments have the attribute. *)
Definition crops_row (attr_from : string) (well : Well) : obj :=
  PArr ((fun segment => default PNone (segment_getattr segment attr_from))
          <$> iter_level well).

End WellBatch.
Arguments call_args : clear implicits.
Arguments method : clear implicits.
Arguments attr : clear implicits.
End well_batch.

(** ** [well_logs/core/core_images.py] *)

Module core_images.
Import posixpath.

(** [_get_uv_path(path_dl)] *)
Definition _get_uv_path (path_dl : str) : str :=
  let _path := split path_dl in
  let filename := _path.2 in
  let dirname_uv := take (length _path.1 - 2) _path.1 ++ ["u"; "v"]%char in
  join dirname_uv filename.

(** [CoreIndex.build_key(fullpathname, no_ext)] *)
Definition build_key (fullpathname : str) (no_ext : bool) : str * str :=
  let s1 := split fullpathname in
  let s2 := split s1.1 in
  let s3 := split s2.1 in
  let splitted_path := [s1.2; s2.2; s3.2] in
  let key_name := s3.2 ++ "_"%char :: s1.2 in
  let key_name :=
    if no_ext then
      let dot_position := rfind "."%char key_name in
      let dot_position :=
        if decide (0 < dot_position)%Z then dot_position
        else Z.of_nat (length key_name) in
      take (Z.to_nat dot_position) key_name
    else key_name in
  (key_name, fullpathname).

Section CoreBatch.
Context {Image Float : Type}.
Local Abbreviation obj := (pyobj Image).

(** A decoded image is an ndarray from outside the sources: [shape img] is
    [img.shape], and [rows img] is what iterating over [img] yields. *)
Variable shape : Image -> list Z.
Variable rows : Image -> list Image.

(** [n_permutations n proba] is [int(np.ceil(n * proba / 2))], computed in
    floating point on the float [proba]. *)
Variable n_permutations : nat -> Float -> Z.

(** A [CoreBatch]. A component is a 1-D array of objects (images, labels);
    the arrays are mutable and may be shared between attribute names, so an
    attribute holds the address of its array and the arrays live in
    [heap]. *)
Record batch := Batch {
  index : list string;
  attrs : gmap string nat;
  heap : gmap nat (list obj)
}.

Definition components : list string := ["dl"; "uv"; "labels"].

(** [getattr(self, name)] and [setattr(self, name, array)] *)
Definition getattr_self (name : string) : py batch nat :=
  fun b => match attrs b !! name with
           | Some a => (Ok a, b)
           | None => (Raise (AttributeError name), b)
           end.

Definition setattr_self (name : string) (a : nat) : py batch unit :=
  modify (fun b => Batch (index b) (<[name := a]> (attrs b)) (heap b)).

(** [array[pos]] and [array[pos] = v] on the array at address [a]. *)
Definition load_item (a pos : nat) : py batch obj :=
  fun b => match heap b !! a with
           | Some l => match l !! pos with
                       | Some v => (Ok v, b)
                       | None => (Raise (IndexError "index out of bounds"), b)
                       end
           | None => (Raise (TypeError "object is not subscriptable"), b)
           end.

Definition store_item (a pos : nat) (v : obj) : py batch unit :=
  fun b => match heap b !! a with
           | Some l =>
               if decide (pos < length l) then
                 (Ok tt, Batch (index b) (attrs b) (<[a := <[pos := v]> l]> (heap b)))
               else (Raise (IndexError "index out of bounds"), b)
           | None => (Raise (TypeError "object does not support item assignment"), b)
           end.

(** [self.get_pos(None, component, index)] *)
Definition get_pos (component : string) (index_ : string) : py batch nat :=
  fun b => (find_pos (index b) index_, b).

(** The [components] argument of [_get_components]. *)
Inductive names :=
  | Name (s : string)
  | Names (l : list string).

Definition _get_components (index_ : string) (comps : option names) : py batch obj :=
  let comps :=
    match comps with
    | None => components
    | Some (Name s) => [s]
    | Some (Names l) => l
    end in
  let* c0 :=
    match comps !! 0 with
    | Some c => ret c
    | None => raise (IndexError "list index out of range")
    end in
  let* pos := get_pos c0 index_ in
  let* res := for_list (fun component =>
                let* a := getattr_self component in load_item a pos) comps in
  match res with
  | [r] => ret r
  | _ => ret (PArr res)
  end.

(** *** [shuffle_images] *)

(** [np.random.choice(pool, n, replace=False)]: [rnd] is the generator's
    output; each draw takes one of the items still in the pool. *)
Fixpoint draw {A} (pool : list A) (n : nat) (rnd : list nat) : list A :=
  match n with
  | 0 => []
  | S n' =>
      let r := hd 0 rnd mod length pool in
      match pool !! r with
      | Some x => x :: draw (delete r pool) n' (tl rnd)
      | None => []
      end
  end.

Definition choice {A} (pool : list A) (n : Z) (rnd : list nat) : outcome (list A) :=
  if decide (n < 0)%Z then Raise (ValueError "negative dimensions are not allowed")
  else if decide (Z.of_nat (length pool) < n)%Z then
    Raise (ValueError "Cannot take a larger sample than population when 'replace=False'")
  else Ok (draw pool (Z.to_nat n) rnd).

(** [seq[i]] on a tuple or list of names. *)
Definition item (l : list string) (i : nat) : outcome string :=
  match l !! i with
  | Some s => Ok s
  | None => Raise (IndexError "tuple index out of range")
  end.

(** One turn of the swapping loop, for the pair of keys [(i, j)]. *)
Definition swap_pair (src dst : list string) (ij : string * string) : py batch unit :=
  let '(i, j) := ij in
  if decide (i ≠ j) then
    let* s1 := lift (item src 1) in
    let* uv1 := _get_components i (Some (Name s1)) in
    let* s1 := lift (item src 1) in
    let* uv2 := _get_components j (Some (Name s1)) in
    let* d1 := lift (item dst 1) in
    let* a := getattr_self d1 in
    let* s0 := lift (item src 0) in
    let* p := get_pos s0 i in
    store_item a p uv2;;
    let* d1 := lift (item dst 1) in
    let* a := getattr_self d1 in
    let* s0 := lift (item src 0) in
    let* p := get_pos s0 j in
    store_item a p uv1;;
    let* d2 := lift (item dst 2) in
    let* a := getattr_self d2 in
    let* s0 := lift (item src 0) in
    let* p := get_pos s0 i in
    store_item a p (PInt 1);;
    let* d2 := lift (item dst 2) in
    let* a := getattr_self d2 in
    let* s0 := lift (item src 0) in
    let* p := get_pos s0 j in
    store_item a p (PInt 1)
  else ret tt.

Definition shuffle_images (rnd : list nat) (proba : Float)
    (src dst : option (list string)) : py batch unit :=
  let* b := get in
  let n := n_permutations (length (index b)) proba in
  let* shuffled_indices := lift (choice (index b) n rnd) in
  let src := default components src in
  let dst := default components dst in
  for_each (imap (fun i component => (i, component)) src) (fun '(i, component) =>
    let* d := lift (item dst i) in
    let* a := getattr_self component in
    setattr_self d a);;
  let* b := get in
  for_each (zip (take (Z.to_nat n) (index b)) shuffled_indices) (swap_pair src dst).

(** *** [crop] and [random_crop] *)

(** [slice(None)] and [slice(start, stop)] *)
Inductive pyslice :=
  | SliceAll
  | Slice (start stop : Z).

(** [img[_slice]]: basic slicing gives a view of [base] through one slice
    per leading axis. *)
Record view := View { base : obj; window : list pyslice }.

(** [for img in images]: the items of a list, or the rows of an ndarray. *)
Definition iterate (v : obj) : outcome (list obj) :=
  match v with
  | PArr l => Ok l
  | PObj img => Ok (PObj <$> rows img)
  | _ => Raise (TypeError "object is not iterable")
  end.

(** [images[0]] *)
Definition first_item (v : obj) : outcome obj :=
  let? l := iterate v in
  match l with
  | x :: _ => Ok x
  | [] => Raise (IndexError "index out of range")
  end.

(** [img.shape] and [img.ndim] *)
Definition shape_of (v : obj) : outcome (list Z) :=
  match v with
  | PObj img => Ok (shape img)
  | _ => Raise (AttributeError "shape")
  end.

Definition ndim (v : obj) : outcome nat :=
  match v with
  | PObj img => Ok (length (shape img))
  | _ => Raise (AttributeError "ndim")
  end.

(** [l[-k]] for [k >= 1] *)
Definition neg_item {A} (l : list A) (k : nat) : outcome A :=
  match (if decide (k ≤ length l)%nat then l !! (length l - k) else None) with
  | Some x => Ok x
  | None => Raise (IndexError "index out of range")
  end.

(** [min(l)] *)
Definition py_min (l : list Z) : outcome Z :=
  match l with
  | [] => Raise (ValueError "min() arg is an empty sequence")
  | x :: rest => Ok (foldl Z.min x rest)
  end.

(** [min([img.shape[-2] for img in images])] *)
Definition image_length (images : obj) : outcome Z :=
  let? imgs := iterate images in
  let? extents := traverse (fun img => let? sh := shape_of img in neg_item sh 2) imgs in
  py_min extents.

(** [np.arange(start, stop, step)] on integers. *)
Definition arange (start stop step : Z) : outcome (list Z) :=
  if decide (step = 0)%Z then Raise (OtherException "ZeroDivisionError" "division by zero")
  else
    let n := Z.to_nat (- ((start - stop) / step))%Z in
    Ok ((fun k => start + Z.of_nat k * step)%Z <$> seq 0 n).

(** [np.random.randint(low, high, size=n)]: [rnd] is the generator's raw
    output, reduced into [[low, high)]. *)
Definition randint (low high n : Z) (rnd : list Z) : outcome (list Z) :=
  if decide (high <= low)%Z then Raise (ValueError "low >= high")
  else if decide (n < 0)%Z then Raise (ValueError "negative dimensions are not allowed")
  else Ok ((fun j => low + nth j rnd 0 mod (high - low))%Z <$> seq 0 (Z.to_nat n)).

(** A list of lists of slices. The inner lists are mutable objects: [cells]
    holds each inner list once, and the outer list [outer] holds references
    into [cells]. *)
Record slice_lists := SliceLists { cells : list (list pyslice); outer : list nat }.

(** [[[slice(None)] * ndim] * n]: one inner list is built, and the outer
    list repeats the reference to it [n] times. *)
Definition make_slices (nd n : nat) : slice_lists :=
  SliceLists [replicate nd SliceAll] (replicate n 0).

(** [slices[j][-2] = s] *)
Definition set_slice (sl : slice_lists) (j : nat) (s : pyslice) : outcome slice_lists :=
  match outer sl !! j with
  | None => Raise (IndexError "list index out of range")
  | Some r =>
      match cells sl !! r with
      | None => Raise (IndexError "list index out of range")
      | Some inner =>
          if decide (2 ≤ length inner)%nat then
            Ok (SliceLists (<[r := <[length inner - 2 := s]> inner]> (cells sl)) (outer sl))
          else Raise (IndexError "list assignment index out of range")
      end
  end.

(** [for j, position in enumerate(pos): slices[j][-2] = slice(position, position + length)] *)
Fixpoint set_slices (sl : slice_lists) (j : nat) (pos : list Z) (length_ : Z)
    : outcome slice_lists :=
  match pos with
  | [] => Ok sl
  | position :: rest =>
      let? sl' := set_slice sl j (Slice position (position + length_)) in
      set_slices sl' (S j) rest length_
  end.

(** [img[_slice]] with [_slice] a list of slices, read as a tuple index. *)
Definition getitem (img : obj) (sl : list pyslice) : outcome view :=
  let? nd := ndim img in
  if decide (length sl ≤ nd)%nat then Ok (View img sl)
  else Raise (IndexError "too many indices for array").

(** [[np.array([img[_slice] for _slice in slices]) for img in images]] *)
Definition take_crops (images : obj) (sl : slice_lists) : outcome (list (list view)) :=
  let? imgs := iterate images in
  traverse (fun img =>
    traverse (fun r =>
      match cells sl !! r with
      | Some inner => getitem img inner
      | None => Raise (IndexError "list index out of range")
      end) (outer sl)) imgs.

Definition default_src (src : option names) : option names :=
  match src with
  | None => Some (Names (take 2 components))
  | Some s => Some s
  end.

Definition random_crop (rnd : list Z) (index_ : string) (length_ n_crops : Z)
    (src : option names) : py batch (list (list view)) :=
  let* images := _get_components index_ (default_src src) in
  lift (
    let? img0 := first_item images in
    let? nd := ndim img0 in
    let slices := make_slices nd (Z.to_nat n_crops) in
    let? image_length := image_length images in
    let? pos := randint 0 (image_length - length_ + 1) n_crops rnd in
    let? slices := set_slices slices 0 pos length_ in
    take_crops images slices).

Definition crop (index_ : string) (length_ step : Z) (src : option names)
    : py batch (list (list view)) :=
  let* images := _get_components index_ (default_src src) in
  lift (
    let? image_length := image_length images in
    let? pos := arange 0 (image_length - length_ + 1) step in
    let? img0 := first_item images in
    let? nd := ndim img0 in
    let slices := make_slices nd (length pos) in
    let? slices := set_slices slices 0 pos length_ in
    take_crops images slices).

(** The offset of a window along the cropped axis: the start of its slice
    at axis [-2]. *)
Definition offset (v : view) : option Z :=
  match neg_item (window v) 2 with
  | Ok (Slice start _) => Some start
  | _ => None
  end.

(** The offsets of the windows of a result of [crop] or [random_crop], per
    image. *)
Definition offsets (crops : list (list view)) : list (list (option Z)) :=
  map (map offset) crops.

(** The one inner list that every entry of [slices] refers to, once the
    loop over [pos] has run: only the last position is left in it. *)
Definition shared_window (nd : nat) (pos : list Z) (length_ : Z) : list pyslice :=
  match last pos with
  | Some p => <[nd - 2 := Slice p (p + length_)]> (replicate nd SliceAll)
  | None => replicate nd SliceAll
  end.

(** The positions that [shuffle_images] writes to, for the pairs of keys
    [(i, j)] it walks through: those of the pairs with [i != j]. *)
Definition position (ks : list string) (k : string) : option nat :=
  match find_pos ks k with
  | Ok p => Some p
  | Raise _ => None
  end.

Definition swapped_positions (ks : list string) (pairs : list (string * string)) : list nat :=
  flat_map (fun ij => if decide (ij.1 = ij.2) then []
                      else omap (position ks) [ij.1; ij.2]) pairs.

(** *** [_mirror_padding] and [fix_shape] *)

(** [image.size] of a PIL image: the width and the height, which are
    [shape[1]] and [shape[0]] of its array. *)
Definition pil_size (image : obj) : outcome (Z * Z) :=
  match image with
  | PObj i =>
      match shape i with
      | h :: w :: _ => Ok (w, h)
      | _ => Raise (AttributeError "size")
      end
  | _ => Raise (AttributeError "size")
  end.

(** NumPy's 64-bit integers: an array of Python ints that all fit 64 bits
    has dtype int64, and its arithmetic wraps around. *)
Definition in_int64 (z : Z) : Prop := (- 2 ^ 63 <= z < 2 ^ 63)%Z.

Definition wrap64 (z : Z) : Z := ((z + 2 ^ 63) mod 2 ^ 64 - 2 ^ 63)%Z.

(** One entry of [(np.array(shape) - image.size) * (np.array(shape) - image.size > 0)],
    on int64 arrays. *)
Definition deficit (target size : Z) : Z :=
  let d := wrap64 (target - size) in
  (d * (if decide (0 < d) then 1 else 0))%Z.

(** [np.pad(source, pad_width, mode='reflect')]: the array it is applied to
    and the widths added before and after each axis. *)
Record padded := Padded { source : obj; pad_width : list (Z * Z) }.

(** [np.pad] wants one pair of widths per axis, and in mode [reflect] it
    cannot extend an axis that is empty. *)
Definition np_pad (image : obj) (padding_shape : list (Z * Z)) : outcome padded :=
  let? nd := ndim image in
  let? sh := shape_of image in
  if decide (length padding_shape = nd) then
    match list_find (fun ep : Z * (Z * Z) => ep.1 = 0%Z ∧ ep.2 ≠ (0, 0)%Z)
                    (zip sh padding_shape) with
    | Some (axis, _) =>
        Raise (ValueError ("can't extend empty axis " +:+ pretty axis +:+
                           " using modes other than 'constant' or 'empty'"))
    | None => Ok (Padded image padding_shape)
    end
  else Raise (ValueError "Unable to create correctly shaped tuple").

(** When an entry of [shape] does not fit 64 bits, [np.array(shape)] is no
    int64 array (its dtype is uint64 or object, or float64), and what the
    subtraction and [np.pad] then do differs between the releases of NumPy:
    [_mirror_padding_wide] is the outcome in that case. *)
Variable _mirror_padding_wide : obj -> Z * Z -> outcome padded.

Definition _mirror_padding (image : obj) (shape_ : Z * Z) : outcome padded :=
  let? size := pil_size image in
  if decide (in_int64 shape_.1 ∧ in_int64 shape_.2 ∧ in_int64 size.1 ∧ in_int64 size.2)
  then
    let new_shape := (deficit shape_.1 size.1, deficit shape_.2 size.2) in
    let padding_shape :=
      [(new_shape.2, new_shape.2); (new_shape.1, new_shape.1); (0, 0)%Z] in
    let? nd := ndim image in
    let padding_shape :=
      if decide (nd = 2) then take 2 padding_shape else padding_shape in
    np_pad image padding_shape
  else _mirror_padding_wide image shape_.

(** The shape of the array that [np.pad] returns. *)
Definition padded_shape (p : padded) : outcome (list Z) :=
  let? sh := shape_of (source p) in
  Ok (zip_with (fun e ab => e + ab.1 + ab.2)%Z sh (pad_width p)).

(** [np.array(img).shape]: an image has its shape, a scalar has none, a
    list of scalars has one axis. *)
Definition array_shape (v : obj) : list Z :=
  match v with
  | PObj i => shape i
  | PArr l => [Z.of_nat (length l)]
  | _ => []
  end.

(** [np.array(img).shape[i]] *)
Definition extent (v : obj) (i : nat) : outcome Z :=
  match array_shape v !! i with
  | Some e => Ok e
  | None => Raise (IndexError "tuple index out of range")
  end.

(** [min] called with the unpacked list of integers as its arguments: a
    single argument would have to be iterable. *)
Definition min_star (l : list Z) : outcome Z :=
  match l with
  | [] => Raise (TypeError "min expected at least 1 argument, got 0")
  | [_] => Raise (TypeError "'int' object is not iterable")
  | x :: rest => Ok (foldl Z.min x rest)
  end.

(** The body of [fix_shape]; [img[:a, :b]] is the view through
    [slice(0, a)] and [slice(0, b)]. *)
Definition fix_shape (index_ : string) (src : option names) : py batch (list view) :=
  let* got := _get_components index_ (default_src src) in
  lift (
    let? images := iterate got in
    let? heights := traverse (fun img => extent img 0) images in
    let? m0 := min_star heights in
    let? widths := traverse (fun img => extent img 1) images in
    let? m1 := min_star widths in
    traverse (fun img => getitem img [Slice 0 m0; Slice 0 m1]) images).

End CoreBatch.
Arguments batch : clear implicits.
Arguments view : clear implicits.
Arguments padded : clear implicits.
End core_images.

(** ** Example inputs *)

Module Examples.
Import well_batch core_images.

(** The batch of the examples: two or three wells, none loaded yet. *)
Definition batch_AB : Batchflow.world nat :=
  World {[ "index" := PIndex ["A"; "B"] None ]} [].
Definition batch_ABC : Batchflow.world nat :=
  World {[ "index" := PIndex ["A"; "B"; "C"] None ]} [].
Definition boom : pyobj nat := PExn (OtherException "IOError" "unreadable").
Definition skip : pyobj nat := PExn (SkipWellException "no segments").

(** A worker contract with one operation, [score], which [Well] implements
    by returning its argument count. *)
Definition score_only (name : string)
    : option (pyobj nat -> call_args nat -> outcome (pyobj nat)) :=
  if decide (name = "score") then Some (fun _ a => Ok (PInt (Z.of_nat (length (args a)))))
  else None.
Definition AbstractWell : class := Class (Some {[ "score" ]}).
Definition PlainBase : class := Class None.
Definition body : gmap string (attr nat) := {[ "targets" := ADict ∅ ]}.

(** Three wells and a task that returns the name of its item. *)
Definition three_wells : Batchflow.world nat :=
  World {[ "index" := PIndex ["A"; "B"; "C"] None ]} [].
Definition name_of (k : string) : py (Batchflow.world nat) (pyobj nat) :=
  lift (Ok (PStr k)).

(** Two wells on disk; the file of the second holds no usable log. *)
Definition load_well (path : string) (_ : list (string * pyobj string)) : outcome string :=
  if decide (path = "wells/B.las") then Raise (SkipWellException "no logs in file")
  else Ok path.
Definition paths_AB : gmap string string :=
  {[ "A" := "wells/A.las"; "B" := "wells/B.las" ]}.
Definition fresh : Batchflow.world string := World ∅ [].

(** One loaded well with a single segment that has a [depth]. *)
Definition one_segment (w : nat) : list nat := [w].
Definition depth_only (seg : nat) (name : string) : option (pyobj nat) :=
  if decide (name = "depth") then Some (PInt (Z.of_nat seg)) else None.
Definition loaded : Batchflow.world nat :=
  World {[ "index" := PIndex ["A"] None; "wells" := PArr [PObj 7] ]} [].

(** [int(np.ceil(n * proba / 2))] on a rational [proba]. *)
Definition rational_n_permutations (n : nat) (proba : Q) : Z :=
  Qceiling (Qdiv (Qmult (inject_Z (Z.of_nat n)) proba) (inject_Z 2)).

(** Images are given by their shapes; four cores, each 10 rows by 6
    columns in daylight and 12 by 6 under UV, all labelled 0. *)
Definition shape_of_image (img : list Z) : list Z := img.
Definition no_rows (img : list Z) : list (list Z) := [].
Definition dl_image : pyobj (list Z) := PObj [10; 6]%Z.
Definition uv_image : pyobj (list Z) := PObj [12; 6]%Z.
Definition four_cores : batch (list Z) :=
  Batch ["c1"; "c2"; "c3"; "c4"]
        {[ "dl" := 0; "uv" := 1; "labels" := 2 ]}
        {[ 0 := replicate 4 dl_image; 1 := replicate 4 uv_image;
           2 := replicate 4 (PInt 0) ]}.

(** In the examples no list of results holds a sequence or an integer of
    more than 64 bits, and the rows that [get_crops] stacks are integer
    rows of one length, which [np.array] keeps entry by entry. *)
Definition np_rows (l : list (pyobj nat)) : outcome (list (pyobj nat)) := Ok l.

(** No target shape of the examples has an entry beyond 64 bits; there a
    current NumPy refuses the padding widths. *)
Definition no_wide_padding (image : pyobj (list Z)) (shape_ : Z * Z)
    : outcome (padded (list Z)) :=
  Raise (TypeError "`pad_width` must be of integral type.").

(** Two loaded wells. *)
Definition two_loaded : Batchflow.world nat :=
  World {[ "index" := PIndex ["A"; "B"] None; "wells" := PArr [PObj 7; PObj 8] ]} [].

(** A class body that defines [score] itself. *)
Definition complete_body : gmap string (attr nat) :=
  {[ "score" := AFunction (fun _ _ => ret (PInt 1)) ]}.

(** Wells handed over ready made, by key. *)
Definition stored : gmap string (pyobj string) :=
  {[ "A" := PObj "a.las"; "B" := PObj "b.las" ]}.

End Examples.

(** * Properties *)

(** ** Lists, masks and counting *)

Section ListFacts.
Context {A : Type}.

Lemma count_true_fmap_all (f : A -> bool) (l : list A) :
  count_true (f <$> l) = length l ↔ Forall (fun x => f x = true) l.
Proof.
  unfold count_true. induction l as [|x l IH].
  - split; [constructor | done].
  - rewrite fmap_cons, filter_cons, Forall_cons.
    pose proof (length_filter (fun b => b = true) (f <$> l)) as Hle.
    rewrite length_fmap in Hle.
    case_decide as E; simpl; split.
    + intros H. split; [done|]. apply IH. lia.
    + intros [_ H]. f_equal. by apply IH.
    + lia.
    + intros [H _]. done.
Qed.

Lemma select_negb_fmap (f : A -> bool) (l : list A) :
  select l (negb <$> (f <$> l)) = filter (fun x => f x = false) l.
Proof.
  induction l as [|x l IH]; [done|].
  rewrite !fmap_cons, filter_cons. simpl select.
  destruct (f x) eqn:E; simpl; [done|]. by rewrite IH.
Qed.

Lemma select_zip {B} (f : B -> bool) (ks : list A) (l : list B) :
  length l = length ks ->
  select ks (negb <$> (f <$> l)) = (filter (fun kr => f kr.2 = false) (zip ks l)).*1.
Proof.
  revert l. induction ks as [|k ks IH]; intros [|x l] Hlen; try done.
  rewrite !fmap_cons. simpl zip. rewrite filter_cons. simpl select. simpl in Hlen.
  simpl snd. destruct (f x) eqn:E; simpl.
  - apply IH. lia.
  - f_equal. apply IH. lia.
Qed.

Lemma existsb_true_elem (f : A -> bool) (l : list A) :
  existsb f l = true ↔ ∃ x, x ∈ l ∧ f x = true.
Proof.
  rewrite existsb_exists. by setoid_rewrite list_elem_of_In.
Qed.

Lemma existsb_false_Forall (f : A -> bool) (l : list A) :
  existsb f l = false ↔ Forall (fun x => f x = false) l.
Proof.
  induction l as [|x l IH]; simpl.
  - split; [constructor | done].
  - rewrite Forall_cons, orb_false_iff. by rewrite IH.
Qed.

Lemma invert_fmap (f : A -> bool) (l : list A) :
  l ≠ [] -> invert (f <$> l) = Ok (negb <$> (f <$> l)).
Proof. by destruct l. Qed.

Lemma boolean_index_fmap {B} (f : B -> bool) (l : list A) (rs : list B) :
  length rs = length l ->
  boolean_index l (negb <$> (f <$> rs)) = Ok (select l (negb <$> (f <$> rs))).
Proof.
  intros H. unfold boolean_index. rewrite !length_fmap. by rewrite decide_True.
Qed.

End ListFacts.

(** ** Reading the Index of a batch *)

Section IndexFacts.
Context {O : Type}.
Implicit Types (w : Batchflow.world O).

Lemma len_self_index w ks paths :
  self w !! "index" = Some (PIndex ks paths) -> len_self w = (Ok (length ks), w).
Proof. intros H. unfold len_self, bind, getattr_self, lift. by rewrite H. Qed.

Lemma indices_index w ks paths :
  self w !! "index" = Some (PIndex ks paths) -> indices w = (Ok ks, w).
Proof. intros H. unfold indices, bind, getattr_self, lift. by rewrite H. Qed.

Lemma find_pos_NoDup (ks : list string) (p : nat) (k : string) :
  NoDup ks -> ks !! p = Some k -> find_pos ks k = Ok p.
Proof.
  intros Hnd Hp. unfold find_pos.
  destruct (list_find (fun k' => k' = k) ks) as [[q k']|] eqn:Hfind.
  - apply list_find_Some in Hfind as (Hq & -> & _).
    f_equal. by eapply NoDup_lookup.
  - apply list_find_None in Hfind. rewrite Forall_forall in Hfind.
    exfalso. eapply Hfind; [|done]. by eapply list_elem_of_lookup_2.
Qed.

Lemma get_pos_NoDup w ks paths c (p : nat) (k : string) :
  self w !! "index" = Some (PIndex ks paths) ->
  NoDup ks -> ks !! p = Some k -> get_pos c k w = (Ok p, w).
Proof.
  intros Hidx Hnd Hp. unfold get_pos, bind.
  rewrite (indices_index _ _ _ Hidx). unfold lift.
  by rewrite (find_pos_NoDup _ _ _ Hnd Hp).
Qed.

End IndexFacts.

Lemma bind_run {S A B} (c : py S A) (k : A -> py S B) (s : S) :
  bind c k s = match c s with
               | (Ok a, s') => k a s'
               | (Raise e, s') => (Raise e, s')
               end.
Proof. reflexivity. Qed.

(** ** Filtering assembly: [WellBatch._filter_assemble] *)

Module FilterAssemble.
Import well_batch.
Section FilterAssemble.
Context {Well : Type}.
Local Abbreviation obj := (pyobj Well).
Local Abbreviation world := (Batchflow.world Well).
Variable np_other : list obj -> outcome (list obj).

Lemma not_all_skipped (results : list obj) (r : obj) :
  r ∈ results -> is_skip r = false ->
  results ≠ [] ∧ count_true (is_skip <$> results) ≠ length results.
Proof.
  intros Hin Hskip. split.
  - intros ->. by apply not_elem_of_nil in Hin.
  - intros Hall%count_true_fmap_all.
    rewrite Forall_forall in Hall. specialize (Hall r Hin). congruence.
Qed.

Lemma np_array_objects (l : list obj) :
  existsb plain_object l = true -> np_array np_other l = Ok l.
Proof. intros H. unfold np_array. by rewrite H. Qed.

Lemma np_array_scalars (l : list obj) :
  existsb plain_object l = false -> forallb small_scalar l = true ->
  np_array np_other l = Ok (if existsb is_str l then np_str <$> l else l).
Proof. intros H1 H2. unfold np_array. by rewrite H1, H2. Qed.

Lemma exception_is_plain_object (l : list obj) (r : obj) :
  r ∈ l -> is_exception r = true -> existsb plain_object l = true.
Proof.
  intros Hin Hexc. apply existsb_true_elem. exists r. split; [done|].
  by destruct r.
Qed.

Lemma scalars_hold_no_exception (l : list obj) :
  forallb small_scalar l = true ->
  Forall (fun r => is_skip r = false) l ∧
  any_action_failed (if existsb is_str l then np_str <$> l else l) = false.
Proof.
  intros Hall. rewrite forallb_forall in Hall.
  assert (Hno : ∀ r, r ∈ l -> is_skip r = false ∧ is_exception r = false
                              ∧ is_exception (np_str r) = false).
  { intros r Hr%list_elem_of_In. specialize (Hall r Hr). by destruct r. }
  split.
  - apply Forall_forall. intros r Hr. by apply Hno.
  - unfold any_action_failed. apply existsb_false_Forall, Forall_forall.
    destruct (existsb is_str l).
    + intros r (r0 & -> & Hr0)%list_elem_of_fmap. by apply Hno.
    + intros r Hr. by apply Hno.
Qed.

Lemma filter_all {A} (P : A -> Prop) `{!∀ x, Decision (P x)} (l : list A) :
  Forall P l -> filter P l = l.
Proof.
  induction 1 as [|x l Hx _ IH]; [done|].
  by rewrite filter_cons_True, IH.
Qed.

Lemma kept_keys_length (ks : list string) (results : list obj) :
  length results = length ks ->
  length (filter (fun r => is_skip r = false) results)
  = length (filter (fun kr : string * obj => is_skip kr.2 = false) (zip ks results)).
Proof.
  revert ks. induction results as [|x l IH]; intros [|k ks] Hlen; try done.
  simpl zip. rewrite !filter_cons. simpl snd. simpl in Hlen.
  destruct (is_skip x); simpl; [|f_equal]; apply IH; lia.
Qed.

(** C1. Let [results] hold one result per key of the Index. When some
    non-skipped result is a hard failure, the filtering assembly prints the
    list of all hard failures and the traceback of the first one, raises
    [RuntimeError("Could not assemble the batch")], and the attributes of
    the batch (Index and components) are exactly those from before the
    call. *)
Theorem hard_failure_aborts (w : world) ks paths (results : list obj) :
  self w !! "index" = Some (PIndex ks paths) ->
  length results = length ks ->
  (∃ r, r ∈ results ∧ hard_failure r) ->
  ∃ first rest,
    filter hard_failure results = first :: rest ∧
    _filter_assemble np_other results w =
      (Raise (RuntimeError "Could not assemble the batch"),
       World (self w)
             (console w ++ [Print (PArr (filter hard_failure results)); PrintTb first])).
Proof.
  intros Hidx Hlen (r & Hin & Hexc & Hskip).
  destruct (not_all_skipped results r Hin Hskip) as [Hne Hcount].
  rewrite Hlen in Hcount.
  assert (Hfilter : filter (fun x => is_exception x = true)
                      (filter (fun x => is_skip x = false) results)
                    = filter hard_failure results).
  { rewrite list_filter_filter. apply list_filter_iff. unfold hard_failure. tauto. }
  assert (Hany : any_action_failed (filter (fun x => is_skip x = false) results) = true).
  { unfold any_action_failed. apply existsb_true_elem. exists r.
    split; [|done]. by apply list_elem_of_filter. }
  assert (Hmem : r ∈ filter hard_failure results).
  { apply list_elem_of_filter. split; [split|]; done. }
  destruct (filter hard_failure results) as [|first rest] eqn:Hf.
  { by apply not_elem_of_nil in Hmem. }
  exists first, rest. split; [done|].
  unfold _filter_assemble, bind.
  rewrite (len_self_index _ _ _ Hidx), decide_False by done.
  unfold lift. rewrite np_array_objects by (by eapply exception_is_plain_object).
  rewrite invert_fmap by done.
  rewrite boolean_index_fmap by done.
  rewrite select_negb_fmap, Hany. unfold get_errors. rewrite Hfilter. simpl.
  unfold raise. by rewrite <- app_assoc.
Qed.

(** C2. Let [results] hold one result per key of the Index. When every
    result is the Skip signal, the filtering assembly raises
    [SkipBatchException] (not a [RuntimeError]) and returns no batch; the
    state is left as it was. *)
Theorem all_skipped_raises_SkipBatchException (w : world) ks paths (results : list obj) :
  self w !! "index" = Some (PIndex ks paths) ->
  length results = length ks ->
  Forall (fun r => is_skip r = true) results ->
  _filter_assemble np_other results w = (Raise SkipBatchException, w).
Proof.
  intros Hidx Hlen Hall. unfold _filter_assemble, bind.
  rewrite (len_self_index _ _ _ Hidx).
  apply count_true_fmap_all in Hall. rewrite Hall, Hlen.
  by rewrite decide_True.
Qed.

(** C3, amended. Let [results] hold one result per key of the Index, with
    at least one non-skipped result and no hard failure among the
    non-skipped ones, and let some result be an object that NumPy stores as
    it is (a Skip signal, [None], a worker) or every result be a string or
    an integer of at most 64 bits. The filtering assembly succeeds and
    prints nothing; the Index becomes the keys of the non-skipped positions
    in their original order, [wells] becomes the entries of
    [np.array(results)] at the non-skipped positions, and every component
    is as long as the new Index. In the first case these entries are
    exactly the non-skipped results, in order. In the second case nothing
    is skipped and the entries are the results themselves when all are
    integers; when a string is among them, every integer is stored as its
    decimal string and every string without its trailing NUL characters. *)
Theorem keeps_non_skipped (w : world) ks paths (results : list obj) :
  self w !! "index" = Some (PIndex ks paths) ->
  length results = length ks ->
  (∃ r, r ∈ results ∧ is_skip r = false) ->
  (∀ r, r ∈ results -> is_skip r = false -> is_exception r = false) ->
  existsb plain_object results || forallb small_scalar results = true ->
  let kept :=
    if existsb plain_object results
    then filter (fun r => is_skip r = false) results
    else if existsb is_str results then np_str <$> results
    else results in
  let kept_keys := (filter (fun kr => is_skip kr.2 = false) (zip ks results)).*1 in
  ∃ w',
    _filter_assemble np_other results w = (Ok tt, w') ∧
    console w' = console w ∧
    self w' = <["wells" := PArr kept]> (<["index" := PIndex kept_keys paths]> (self w)) ∧
    kept_keys `sublist_of` ks ∧
    (existsb plain_object results = false -> kept_keys = ks) ∧
    (∀ c, c ∈ components ->
       ∃ l, self w' !! c = Some (PArr l) ∧ length l = length kept_keys).
Proof.
  intros Hidx Hlen (r & Hin & Hskip) Hok Hknown kept kept_keys.
  destruct (not_all_skipped results r Hin Hskip) as [Hne Hcount].
  rewrite Hlen in Hcount.
  assert (Hsub : kept_keys `sublist_of` ks).
  { unfold kept_keys. clear. revert results.
    induction ks as [|k ks IH]; intros [|x l]; simpl; try done.
    + apply sublist_nil_l.
    + rewrite filter_cons. simpl. destruct (is_skip x); simpl.
      * by apply sublist_cons.
      * by apply sublist_skip. }
  assert (Hkeys : length (filter (fun r => is_skip r = false) results) = length kept_keys).
  { unfold kept_keys. rewrite length_fmap. by apply kept_keys_length. }
  assert (Hrun : ∀ arr,
            np_array np_other results = Ok arr ->
            length arr = length results ->
            any_action_failed (select arr (negb <$> (is_skip <$> results))) = false ->
            _filter_assemble np_other results w =
              (Ok tt,
               World (<["wells" := PArr (select arr (negb <$> (is_skip <$> results)))]>
                        (<["index" := PIndex kept_keys paths]> (self w)))
                     (console w))).
  { intros arr Harr Hl Hany. unfold _filter_assemble, bind.
    rewrite (len_self_index _ _ _ Hidx), decide_False by done.
    unfold lift. rewrite Harr. rewrite invert_fmap by done.
    rewrite boolean_index_fmap by done. rewrite Hany.
    unfold getattr_self. rewrite Hidx. rewrite (indices_index _ _ _ Hidx).
    rewrite boolean_index_fmap by done. rewrite select_zip by done.
    simpl. reflexivity. }
  subst kept. destruct (existsb plain_object results) eqn:Hobj.
  - eexists. split; [|split; [|split; [|split; [|split]]]].
    + rewrite (Hrun results); [| by apply np_array_objects | done |].
      * rewrite select_negb_fmap. reflexivity.
      * rewrite select_negb_fmap.
        unfold any_action_failed. apply existsb_false_Forall, Forall_forall.
        intros x [Hx Hxin]%list_elem_of_filter. by apply Hok.
    + done.
    + done.
    + done.
    + done.
    + intros c Hc. apply list_elem_of_singleton in Hc as ->.
      eexists. simpl. by rewrite lookup_insert_eq.
  - simpl in Hknown.
    destruct (scalars_hold_no_exception results Hknown) as [Hnoskip Hclean].
    set (arr := if existsb is_str results then np_str <$> results else results) in *.
    assert (Hl : length arr = length results).
    { unfold arr. destruct (existsb is_str results); [by rewrite length_fmap | done]. }
    assert (Hmask : negb <$> (is_skip <$> results) = replicate (length results) true).
    { clear -Hnoskip. induction Hnoskip as [|x l Hx _ IH]; [done|].
      rewrite !fmap_cons, Hx, IH. done. }
    assert (Hsel : select arr (negb <$> (is_skip <$> results)) = arr).
    { rewrite Hmask, <- Hl. clear. induction arr as [|x l IH]; [done|].
      simpl. by rewrite IH. }
    assert (Hall : kept_keys = ks).
    { unfold kept_keys. rewrite filter_all.
      - by apply fst_zip; lia.
      - apply Forall_forall. intros [k x] Hkx. simpl.
        apply elem_of_zip_r in Hkx. rewrite Forall_forall in Hnoskip.
        by apply Hnoskip. }
    eexists. split; [|split; [|split; [|split; [|split]]]].
    + rewrite (Hrun arr); [| by apply np_array_scalars | done | by rewrite Hsel].
      by rewrite Hsel.
    + done.
    + done.
    + done.
    + done.
    + intros c Hc. apply list_elem_of_singleton in Hc as ->.
      eexists. simpl. rewrite lookup_insert_eq. split; [done|].
      rewrite Hall, Hl. done.
Qed.

End FilterAssemble.

Import Examples.

Lemma hard_failure_aborts_witness :
  self batch_AB !! "index" = Some (PIndex ["A"; "B"] None) ∧
  length [PInt 1; boom] = length ["A"; "B"] ∧
  (∃ r, r ∈ [PInt 1; boom] ∧ hard_failure r) ∧
  ∃ first rest,
    filter hard_failure [PInt 1; boom] = first :: rest ∧
    _filter_assemble np_rows [PInt 1; boom] batch_AB =
      (Raise (RuntimeError "Could not assemble the batch"),
       World (self batch_AB)
             (console batch_AB ++
                [Print (PArr (filter hard_failure [PInt 1; boom])); PrintTb first])).
Proof.
  assert (H : ∃ r, r ∈ [PInt 1; boom] ∧ hard_failure r).
  { exists boom. split; [set_solver | by split]. }
  split; [reflexivity | split; [reflexivity | split; [exact H |]]].
  apply (hard_failure_aborts np_rows batch_AB ["A"; "B"] None [PInt 1; boom]);
    [reflexivity | reflexivity | exact H].
Defined.

Lemma all_skipped_witness :
  self batch_AB !! "index" = Some (PIndex ["A"; "B"] None) ∧
  length [skip; skip] = length ["A"; "B"] ∧
  Forall (fun r => is_skip r = true) [skip; skip] ∧
  _filter_assemble np_rows [skip; skip] batch_AB = (Raise SkipBatchException, batch_AB).
Proof.
  assert (H : Forall (fun r => is_skip r = true) [skip; skip]) by (repeat constructor).
  split; [reflexivity | split; [reflexivity | split; [exact H |]]].
  apply (all_skipped_raises_SkipBatchException np_rows batch_AB ["A"; "B"] None [skip; skip]);
    [reflexivity | reflexivity | exact H].
Defined.

(** C3, as stated, fails: of two results, an integer and a string, none is
    skipped and none is a failure; the assembly succeeds, and [wells] holds
    the string "5" where the result was the integer 5. *)
Lemma mixed_results_are_stored_as_strings :
  ∃ w',
    _filter_assemble np_rows [PInt 5; PStr "x"] batch_AB = (Ok tt, w') ∧
    self w' !! "index" = Some (PIndex ["A"; "B"] None) ∧
    self w' !! "wells" = Some (PArr [PStr "5"; PStr "x"]) ∧
    self w' !! "wells" ≠
      Some (PArr (filter (fun r => is_skip r = false) [PInt 5; PStr "x"])).
Proof.
  eexists. split; [vm_compute; reflexivity|].
  split; [reflexivity|]. split; [reflexivity|]. discriminate.
Qed.

Lemma keeps_non_skipped_witness :
  ∃ w',
    _filter_assemble np_rows [skip; PInt 5; PInt 7] batch_ABC = (Ok tt, w') ∧
    self w' !! "index" = Some (PIndex ["B"; "C"] None) ∧
    self w' !! "wells" = Some (PArr [PInt 5; PInt 7]).
Proof.
  destruct (keeps_non_skipped np_rows batch_ABC ["A"; "B"; "C"] None [skip; PInt 5; PInt 7])
    as (w' & Hrun & _ & Hself & _).
  - reflexivity.
  - reflexivity.
  - exists (PInt 5). split; [set_solver | reflexivity].
  - intros r Hr Hs.
    apply elem_of_cons in Hr as [-> | Hr]; [discriminate |].
    apply elem_of_cons in Hr as [-> | Hr]; [reflexivity |].
    apply list_elem_of_singleton in Hr as ->. reflexivity.
  - reflexivity.
  - exists w'. split; [exact Hrun |]. rewrite Hself. split; reflexivity.
Defined.

End FilterAssemble.

(** ** The delegation binder: [WellDelegatingMeta] *)

Module Delegation.
Import well_batch.
Section Delegation.
Context {Well : Type}.
Local Abbreviation obj := (pyobj Well).
Local Abbreviation world := (Batchflow.world Well).
Variable Well_getattr : string -> option (obj -> call_args Well -> outcome obj).

Local Abbreviation synthesized target m :=
  (AAction "indices" "_filter_assemble" target (delegator Well_getattr m)).

(** The delegator resolves the worker of the item's key and hands it, with
    the forwarded arguments, to the same-named operation of [Well]. *)
Lemma delegator_calls_worker (m : string) (w : world) ks paths wells
    (p : nat) (k : string) (worker : obj) meth (a : call_args Well) :
  self w !! "index" = Some (PIndex ks paths) ->
  NoDup ks ->
  ks !! p = Some k ->
  self w !! "wells" = Some (PArr wells) ->
  wells !! p = Some worker ->
  Well_getattr m = Some meth ->
  delegator Well_getattr m k a w = (meth worker a, w).
Proof.
  intros Hidx Hnd Hk Hwells Hw Hm. unfold delegator, bind.
  rewrite (get_pos_NoDup _ _ _ _ _ _ Hidx Hnd Hk), Hm.
  unfold getattr_self. rewrite Hwells. unfold lift, subscript. by rewrite Hw.
Qed.

(** The loop of [__new__] over any enumeration of the capability set. *)
Lemma bind_methods_spec (cls : string) (names : list string) :
  ∀ (ns : gmap string (attr Well)) targets,
    ns !! "targets" = Some (ADict targets) ->
    (∀ m, m ∈ names -> is_Some (Well_getattr m)) ->
    ∃ ns',
      for_each names (bind_method Well_getattr cls) ns = (Ok tt, ns') ∧
      ∀ m, ns' !! m =
           match ns !! m with
           | Some v => Some v
           | None => if decide (m ∈ names)
                     then Some (synthesized (default "threads" (targets !! cls)) m)
                     else None
           end.
Proof.
  induction names as [|x names IH]; intros ns targets Htargets Himpl.
  - exists ns. split; [done|]. intros m. destruct (ns !! m); [done|].
    rewrite decide_False; [done | apply not_elem_of_nil].
  - assert (Himpl' : ∀ m, m ∈ names -> is_Some (Well_getattr m)).
    { intros m Hm. apply Himpl. by right. }
    simpl. unfold bind at 1. unfold bind_method at 1. unfold bind at 1, get.
    destruct (ns !! x) as [v|] eqn:Hx.
    + destruct (IH ns targets Htargets Himpl') as (ns' & Hrun & Hlook).
      exists ns'. unfold ret. split; [done|]. intros m. rewrite Hlook.
      destruct (ns !! m) eqn:Hm; [done|].
      destruct (decide (m = x)) as [->|Hne]; [congruence|].
      destruct (decide (m ∈ names)) as [Hin|Hnin].
      * rewrite decide_True; [done | by right].
      * rewrite decide_False; [done|]. intros [?|?]%elem_of_cons; done.
    + rewrite Htargets. destruct (Himpl x) as [meth Hmeth]; [by left|].
      unfold bind, lift, _make_parallel_action. rewrite Hmeth. unfold modify.
      set (act := synthesized (default "threads" (targets !! cls)) x).
      assert (Hne : x ≠ "targets") by (intros ->; congruence).
      destruct (IH (<[x := act]> ns) targets) as (ns' & Hrun & Hlook); [|done|].
      { by rewrite lookup_insert_ne. }
      exists ns'. split; [done|]. intros m. rewrite Hlook.
      destruct (decide (m = x)) as [->|Hmx].
      * rewrite lookup_insert_eq, Hx. rewrite decide_True; [done | by left].
      * rewrite lookup_insert_ne by done. destruct (ns !! m); [done|].
        destruct (decide (m ∈ names)) as [Hin|Hnin].
        -- rewrite decide_True; [done | by right].
        -- rewrite decide_False; [done|]. intros [?|?]%elem_of_cons; done.
Qed.

(** C4. Given a class body that carries the [targets] dict, and a [Well]
    class that has every operation of the capability set, the metaclass
    succeeds and: every capability name the body does not define is bound to
    an action (init "indices", post "_filter_assemble", the target configured
    for the class name, "threads" by default) whose body resolves the worker
    stored at the position of the item's key in [wells] (keys being unique)
    and returns what the same-named [Well] operation returns on that worker
    with the forwarded arguments; every name the body does define keeps its
    binding. *)
Theorem binder_delegates_to_workers (cls : string) (bases : list class)
    (ns : gmap string (attr Well)) (targets : gmap string string) :
  ns !! "targets" = Some (ADict targets) ->
  (∀ m, m ∈ abstract_methods bases -> is_Some (Well_getattr m)) ->
  ∃ ns',
    __new__ Well_getattr cls bases ns = (Ok tt, ns') ∧
    (∀ m, m ∈ abstract_methods bases -> ns !! m = None ->
       ns' !! m = Some (synthesized (default "threads" (targets !! cls)) m) ∧
       ∀ (w : world) ks paths wells (p : nat) (k : string) (worker : obj) meth a,
         self w !! "index" = Some (PIndex ks paths) ->
         NoDup ks ->
         ks !! p = Some k ->
         self w !! "wells" = Some (PArr wells) ->
         wells !! p = Some worker ->
         Well_getattr m = Some meth ->
         delegator Well_getattr m k a w = (meth worker a, w)) ∧
    (∀ m v, ns !! m = Some v -> ns' !! m = Some v).
Proof.
  intros Htargets Himpl. unfold __new__.
  destruct (bind_methods_spec cls (elements (abstract_methods bases)) ns targets)
    as (ns' & Hrun & Hlook); [done | |].
  { intros m Hm. apply Himpl. by apply elem_of_elements. }
  exists ns'. split; [done|]. split.
  - intros m Hm Hnone. split.
    + rewrite Hlook, Hnone. rewrite decide_True; [done|]. by apply elem_of_elements.
    + intros. by eapply delegator_calls_worker.
  - intros m v Hv. by rewrite Hlook, Hv.
Qed.

End Delegation.

Import Examples.

Lemma binder_delegates_to_workers_witness :
  body !! "targets" = Some (ADict ∅) ∧
  (∀ m, m ∈ abstract_methods [PlainBase; AbstractWell] -> is_Some (score_only m)) ∧
  ∃ ns',
    __new__ score_only "WellBatch" [PlainBase; AbstractWell] body = (Ok tt, ns') ∧
    ns' !! "score" =
      Some (AAction "indices" "_filter_assemble" "threads" (delegator score_only "score")) ∧
    ns' !! "targets" = Some (ADict ∅).
Proof.
  assert (Habs : ∀ m, m ∈ abstract_methods [PlainBase; AbstractWell] -> m = "score").
  { intros m. unfold abstract_methods. simpl. set_solver. }
  assert (Himpl : ∀ m, m ∈ abstract_methods [PlainBase; AbstractWell] -> is_Some (score_only m)).
  { intros m ->%Habs. by eexists. }
  split; [reflexivity | split; [exact Himpl |]].
  destruct (binder_delegates_to_workers score_only "WellBatch" [PlainBase; AbstractWell]
              body ∅ eq_refl Himpl) as (ns' & Hrun & Hsyn & Hkeep).
  exists ns'. split; [exact Hrun | split].
  - apply Hsyn; [| reflexivity]. unfold abstract_methods. simpl. set_solver.
  - by apply Hkeep.
Defined.

End Delegation.

(** ** The dispatcher *)

Module Dispatcher.
Section Dispatcher.
Context {O : Type}.
Local Abbreviation obj := (pyobj O).
Local Abbreviation world := (Batchflow.world O).

Lemma completion_order_perm (m : mode) (n : nat) (sched : list nat) :
  completion_order m n sched ≡ₚ seq 0 n.
Proof.
  destruct m; simpl; [done | |];
    (apply NoDup_Permutation;
     [ apply NoDup_app; split; [apply NoDup_remove_dups | split];
       [ intros x Hx Hd; apply list_elem_of_difference in Hd as [_ Hd]; done
       | apply NoDup_list_difference, NoDup_seq ]
     | apply NoDup_seq
     | intros x; rewrite elem_of_app, list_elem_of_difference, elem_of_remove_dups,
         list_elem_of_filter, elem_of_seq;
       destruct (decide (x ∈ sched)); naive_solver lia ]).
Qed.

Lemma run_task_result (m : mode) (c : py world obj) (w : world) :
  ∃ w', run_task m c w = (Ok (task_result c w), w').
Proof.
  unfold task_result. destruct m; simpl; unfold capture;
    destruct (c w) as [[v|e] w']; simpl; eauto.
Qed.

Lemma run_tasks_invariant (m : mode) (f : string -> py world obj) (ks : list string)
    (P : list nat -> world -> list (option obj) -> Prop) :
  (∀ done p k w slots w',
     ks !! p = Some k -> p ∉ done -> P done w slots ->
     run_task m (f k) w = (Ok (task_result (f k) w), w') ->
     P (p :: done) w' (<[p := Some (task_result (f k) w)]> slots)) ->
  ∀ order done w slots,
    NoDup order ->
    (∀ p, p ∈ order -> (p ∉ done) ∧ p < length ks) ->
    P done w slots ->
    ∃ slots' w',
      run_tasks m f ks order slots w = (Ok slots', w') ∧
      P (reverse order ++ done) w' slots'.
Proof.
  intros Hstep order. induction order as [|p rest IH]; intros done w slots Hnd Hin HP.
  - exists slots, w. by split.
  - apply NoDup_cons in Hnd as [Hp Hnd].
    destruct (Hin p) as [Hpd Hlt]; [by left|].
    apply lookup_lt_is_Some in Hlt as [k Hk].
    simpl. rewrite Hk. unfold bind.
    destruct (run_task_result m (f k) w) as [w' Hrun]. rewrite Hrun.
    destruct (IH (p :: done) w' (<[p := Some (task_result (f k) w)]> slots))
      as (slots' & w'' & Hrest & HP'); [done | | by eapply Hstep |].
    { intros q Hq. destruct (Hin q) as [Hqd Hqlt]; [by right|]. split; [|done].
      intros [->|?]%elem_of_cons; done. }
    exists slots', w''. split; [done|].
    by rewrite reverse_cons, <- app_assoc.
Qed.

Lemma omap_id_filled (slots : list (option obj)) :
  Forall is_Some slots -> Some <$> omap id slots = slots.
Proof.
  induction 1 as [|o slots [v ->] _ IH]; [done|]. simpl. f_equal. exact IH.
Qed.

(** C6. Whatever the concurrency mode and whatever order the scheduler
    completes the tasks in, a dispatch returns one result per key of the
    Index, and the result at position [i] is the result of the task that
    was submitted for the [i]-th key; for an operation that does not depend
    on the state it runs in, the result list is the operation mapped over
    the Index. *)
Theorem results_follow_index_order (m : mode) (sched : list nat)
    (f : string -> py world obj) (w : world) ks paths :
  self w !! "index" = Some (PIndex ks paths) ->
  ∃ results w',
    dispatch m sched f w = (Ok results, w') ∧
    length results = length ks ∧
    (∀ i k, ks !! i = Some k -> ∃ s, results !! i = Some (task_result (f k) s)) ∧
    (∀ op, (∀ k s, f k s = (op k, s)) ->
       results = (fun k => match op k with Ok v => v | Raise e => PExn e end) <$> ks).
Proof.
  intros Hidx. unfold dispatch, bind. rewrite (indices_index _ _ _ Hidx).
  set (n := length ks).
  set (P := fun (done : list nat) (_ : world) (slots : list (option obj)) =>
              length slots = n ∧
              ∀ p k, ks !! p = Some k -> p ∈ done ->
                     ∃ s, slots !! p = Some (Some (task_result (f k) s))).
  pose proof (completion_order_perm m n sched) as Hperm.
  destruct (run_tasks_invariant m f ks P) with
    (order := completion_order m n sched) (done := @nil nat) (w := w)
    (slots := replicate n (@None obj)) as (slots & w' & Hrun & Hlen & Hslots).
  - intros done p k w0 slots0 w0' Hk Hp [Hlen HP] _. split.
    + by rewrite length_insert.
    + intros q k' Hk' [->|Hq]%elem_of_cons.
      * exists w0. rewrite list_lookup_insert_eq.
        -- congruence.
        -- rewrite Hlen. by eapply lookup_lt_Some.
      * destruct (decide (q = p)) as [->|Hne]; [done|].
        rewrite list_lookup_insert_ne by done. by apply HP.
  - rewrite Hperm. apply NoDup_seq.
  - intros p Hp. rewrite Hperm in Hp. apply elem_of_seq in Hp.
    split; [apply not_elem_of_nil | unfold n in Hp; lia].
  - split; [by rewrite length_replicate|]. intros p k _ Hp.
    by apply not_elem_of_nil in Hp.
  - rewrite Hrun. unfold ret.
    assert (Hdone : ∀ p, p < n -> p ∈ reverse (completion_order m n sched) ++ []).
    { intros p Hp. rewrite app_nil_r, elem_of_reverse, Hperm, elem_of_seq. lia. }
    assert (Hfilled : Forall is_Some slots).
    { apply Forall_lookup. intros p o Ho.
      assert (Hp : p < n) by (rewrite <- Hlen; by eapply lookup_lt_Some).
      destruct (lookup_lt_is_Some_2 ks p Hp) as [k Hk].
      destruct (Hslots p k Hk (Hdone p Hp)) as [s Hs]. rewrite Hs in Ho.
      injection Ho as <-. by eexists. }
    pose proof (omap_id_filled slots Hfilled) as Hsome.
    assert (Hreslen : length (omap id slots) = n).
    { rewrite <- Hlen. rewrite <- Hsome at 2. by rewrite length_fmap. }
    assert (Hres : ∀ i k, ks !! i = Some k ->
                     ∃ s, omap id slots !! i = Some (task_result (f k) s)).
    { intros i k Hk.
      assert (Hi : i < n) by (by eapply lookup_lt_Some).
      destruct (Hslots i k Hk (Hdone i Hi)) as [s Hs]. exists s.
      rewrite <- Hsome, list_lookup_fmap in Hs.
      destruct (omap id slots !! i); simpl in Hs; congruence. }
    exists (omap id slots), w'. split; [done|]. split; [done|]. split; [done|].
    intros op Hop. apply list_eq. intros i. rewrite list_lookup_fmap.
    destruct (ks !! i) as [k|] eqn:Hk; simpl.
    + destruct (Hres i k Hk) as [s ->]. unfold task_result. by rewrite Hop.
    + apply lookup_ge_None. apply lookup_ge_None in Hk. lia.
Qed.

End Dispatcher.

Import Examples.

Lemma results_follow_index_order_witness :
  self three_wells !! "index" = Some (PIndex ["A"; "B"; "C"] None) ∧
  ∃ w', dispatch ThreadPool [2; 0] name_of three_wells
        = (Ok [PStr "A"; PStr "B"; PStr "C"], w').
Proof.
  split; [reflexivity|].
  destruct (results_follow_index_order ThreadPool [2; 0] name_of three_wells
              ["A"; "B"; "C"] None eq_refl) as (results & w' & Hrun & _ & _ & Hpure).
  exists w'. rewrite Hrun. f_equal. f_equal.
  apply (Hpure (fun k => Ok (PStr k))). reflexivity.
Defined.

End Dispatcher.

(** ** Worker initialization: [WellBatch.__init__] *)

Module WorkerInit.
Import well_batch Delegation Dispatcher.
Section WorkerInit.
Context {Well : Type}.
Local Abbreviation obj := (pyobj Well).
Local Abbreviation world := (Batchflow.world Well).
Variable Well_new : string -> list (string * obj) -> outcome Well.

Section Run.
Variables (src : option (gmap string string)) (kw : list (string * obj)).
Variables (ks : list string) (paths : option (gmap string string)).
Variable (base : gmap string obj).
Hypothesis Hnd : NoDup ks.
Hypothesis Hbase : base !! "index" = Some (PIndex ks paths).

Local Abbreviation idx := (PIndex ks paths).
Local Abbreviation made k := (construct Well_new src idx kw k).

Lemma init_wells_task (w : world) (l : list obj) (p : nat) (k : string) :
  self w = <["wells" := PArr l]> base ->
  length l = length ks ->
  ks !! p = Some k ->
  capture (_init_wells Well_new src kw k) w =
    (Ok (init_result (made k)),
     match made k with
     | Ok well => World (<["wells" := PArr (<[p := PObj well]> l)]> base) (console w)
     | Raise _ => w
     end).
Proof.
  intros Hself Hlen Hk.
  assert (Hidx : self w !! "index" = Some idx).
  { rewrite Hself, lookup_insert_ne by done. exact Hbase. }
  assert (Hwells : self w !! "wells" = Some (PArr l)).
  { by rewrite Hself, lookup_insert_eq. }
  assert (Hrest : ∀ path (c : py world obj),
    c = (let* well := lift (Well_new path kw) in
         let* i := get_pos "wells" k in
         let* wells := getattr_self "wells" in
         match wells with
         | PArr l =>
             if decide (i < length l) then
               setattr_self "wells" (PArr (<[i := PObj well]> l));; ret PNone
             else raise (IndexError "index out of bounds")
         | _ => raise (TypeError "object does not support item assignment")
         end) ->
    match c w with
    | (Ok v, s') => (Ok v, s')
    | (Raise e, s') => (Ok (PExn e), s')
    end =
    (Ok (init_result (Well_new path kw)),
     match Well_new path kw with
     | Ok well => World (<["wells" := PArr (<[p := PObj well]> l)]> base) (console w)
     | Raise _ => w
     end)).
  { intros path c ->. rewrite bind_run. unfold lift.
    destruct (Well_new path kw) as [well|e]; [|done].
    rewrite bind_run, (get_pos_NoDup _ _ _ _ _ _ Hidx Hnd Hk).
    rewrite bind_run. unfold getattr_self. rewrite Hwells.
    rewrite decide_True by (rewrite Hlen; by eapply lookup_lt_Some).
    rewrite bind_run. unfold setattr_self, modify, ret. simpl. rewrite Hself.
    by rewrite insert_insert_eq. }
  unfold capture, _init_wells, construct, and_then. rewrite bind_run.
  destruct src as [s|].
  - destruct (s !! k) as [path|]; [|done]. by apply Hrest.
  - rewrite bind_run. unfold getattr_self at 1. rewrite Hidx. unfold lift at 1.
    destruct (index_path idx k) as [path|e]; [|done]. by apply Hrest.
Qed.

Lemma init_wells_dispatch (sched : list nat) (w0 : world) :
  self w0 = <["wells" := PArr (replicate (length ks) PNone)]> base ->
  dispatch ThreadPool sched (_init_wells Well_new src kw) w0 =
    (Ok ((fun k => init_result (made k)) <$> ks),
     World (<["wells" := PArr ((fun k => init_cell (made k)) <$> ks)]> base) (console w0)).
Proof.
  intros Hself0.
  assert (Hidx : self w0 !! "index" = Some idx).
  { rewrite Hself0, lookup_insert_ne by done. exact Hbase. }
  unfold dispatch. rewrite bind_run, (indices_index _ _ _ Hidx).
  set (n := length ks). set (f := _init_wells Well_new src kw).
  set (P := fun (done : list nat) (w : world) (slots : list (option obj)) =>
    console w = console w0 ∧ length slots = n ∧
    ∃ l, self w = <["wells" := PArr l]> base ∧ length l = n ∧
         ∀ p k, ks !! p = Some k ->
           (p ∈ done -> slots !! p = Some (Some (init_result (made k))) ∧
                        l !! p = Some (init_cell (made k))) ∧
           (p ∉ done -> l !! p = Some PNone)).
  pose proof (completion_order_perm ThreadPool n sched) as Hperm.
  destruct (run_tasks_invariant ThreadPool f ks P) with
    (order := completion_order ThreadPool n sched) (done := @nil nat) (w := w0)
    (slots := replicate n (@None obj))
    as (slots & w' & Hrun & Hout & Hlen & l & Hself & Hl & Hall).
  - intros done p k w slots w1 Hk Hp (Hout & Hlen & l & Hself & Hl & Hall) Hrun.
    unfold f in *. simpl in Hrun.
    rewrite (init_wells_task w l p k Hself Hl Hk) in Hrun.
    injection Hrun as Hres Hw1. rewrite <- Hres. clear Hres.
    assert (Hpl : p < length l) by (rewrite Hl; by eapply lookup_lt_Some).
    assert (Hps : p < length slots) by (rewrite Hlen; by eapply lookup_lt_Some).
    destruct (Hall p k Hk) as [_ Hnone]. specialize (Hnone Hp).
    destruct (made k) as [well|e] eqn:Hmade; subst w1; simpl.
    + split; [done|]. split; [by rewrite length_insert|].
      exists (<[p := PObj well]> l). split; [done|]. split; [by rewrite length_insert|].
      intros q k' Hk'. destruct (decide (q = p)) as [->|Hne].
      * assert (k' = k) as -> by congruence. rewrite Hmade.
        rewrite !list_lookup_insert_eq by done. split; [done|].
        intros Hq. exfalso. apply Hq. by left.
      * rewrite !list_lookup_insert_ne by done.
        destruct (Hall q k' Hk') as [Hd Hn]. split.
        -- intros [?|?]%elem_of_cons; [done | by apply Hd].
        -- intros Hq. apply Hn. intros ?. apply Hq. by right.
    + split; [done|]. split; [by rewrite length_insert|].
      exists l. split; [done|]. split; [done|].
      intros q k' Hk'. destruct (decide (q = p)) as [->|Hne].
      * assert (k' = k) as -> by congruence. rewrite Hmade.
        rewrite list_lookup_insert_eq by done. split; [done|].
        intros Hq. exfalso. apply Hq. by left.
      * rewrite list_lookup_insert_ne by done.
        destruct (Hall q k' Hk') as [Hd Hn]. split.
        -- intros [?|?]%elem_of_cons; [done | by apply Hd].
        -- intros Hq. apply Hn. intros ?. apply Hq. by right.
  - rewrite Hperm. apply NoDup_seq.
  - intros p Hp. rewrite Hperm in Hp. apply elem_of_seq in Hp.
    split; [apply not_elem_of_nil | unfold n in Hp; lia].
  - split; [done|]. split; [by rewrite length_replicate|].
    exists (replicate n PNone). split; [done|]. split; [by rewrite length_replicate|].
    intros p k Hk. split; [by intros ?%not_elem_of_nil|]. intros _.
    apply lookup_replicate_2. by eapply lookup_lt_Some.
  - rewrite bind_run, Hrun. unfold ret.
    assert (Hdone : ∀ p, p < n -> p ∈ reverse (completion_order ThreadPool n sched) ++ []).
    { intros p Hp. rewrite app_nil_r, elem_of_reverse, Hperm, elem_of_seq. lia. }
    assert (Hslots : slots = Some <$> ((fun k => init_result (made k)) <$> ks)).
    { apply list_eq. intros i. rewrite !list_lookup_fmap.
      destruct (ks !! i) as [k|] eqn:Hk; simpl.
      - apply Hall; [done|]. apply Hdone. by eapply lookup_lt_Some.
      - apply lookup_ge_None. apply lookup_ge_None in Hk. lia. }
    assert (Hcells : l = (fun k => init_cell (made k)) <$> ks).
    { apply list_eq. intros i. rewrite !list_lookup_fmap.
      destruct (ks !! i) as [k|] eqn:Hk; simpl.
      - apply Hall; [done|]. apply Hdone. by eapply lookup_lt_Some.
      - apply lookup_ge_None. apply lookup_ge_None in Hk. lia. }
    f_equal.
    + f_equal. rewrite Hslots. clear.
      induction ks as [|k ks' IH]; [done|]. simpl. f_equal. exact IH.
    + destruct w' as [sw' ow']. simpl in *. by rewrite Hself, Hout, Hcells.
Qed.

End Run.

(** C5, as amended. Worker initialization is a plain dispatch of
    [_init_wells] with no assembly step. Whatever the thread schedule, the
    Index holds every key afterwards and [wells] holds, at each position,
    the worker built for that key, or [None] where building it raised; the
    construction succeeds when every worker is built, and raises
    [RuntimeError("Parallel action failed")] as soon as one item raises,
    the Skip signal included. *)
Theorem init_keeps_every_item (sched : list nat) ks paths
    (src : option (gmap string string)) (kw : list (string * obj)) (w0 : world) :
  NoDup ks ->
  let idx := PIndex ks paths in
  let made := construct Well_new src idx kw in
  ∃ w',
    snd (__init__ Well_new sched idx None src kw w0) = w' ∧
    self w' !! "index" = Some idx ∧
    self w' !! "wells" = Some (PArr ((fun k => init_cell (made k)) <$> ks)) ∧
    ((∀ k, k ∈ ks -> ∃ well, made k = Ok well) ->
       fst (__init__ Well_new sched idx None src kw w0) = Ok tt) ∧
    (∀ k e, k ∈ ks -> made k = Raise e ->
       fst (__init__ Well_new sched idx None src kw w0)
         = Raise (RuntimeError "Parallel action failed")).
Proof.
  intros Hnd idx made.
  set (base := <["index" := idx]> (self w0)).
  set (cells := (fun k => init_cell (made k)) <$> ks).
  set (results := (fun k => init_result (made k)) <$> ks).
  assert (Hbase : base !! "index" = Some idx) by apply lookup_insert_eq.
  assert (Hrun : __init__ Well_new sched idx None src kw w0 =
    if any_action_failed results then
      (Raise (RuntimeError "Parallel action failed"),
       World (<["wells" := PArr cells]> base)
             (console w0 ++
                [Print (PArr (filter (fun r => is_exception r = true) results));
                 PrintTb (default PNone (head (filter (fun r => is_exception r = true) results)))]))
    else (Ok tt, World (<["wells" := PArr cells]> base) (console w0))).
  { unfold __init__. rewrite bind_run. unfold setattr_self at 1, modify. cbv beta.
    rewrite bind_run, (len_self_index _ ks paths) by exact Hbase.
    rewrite bind_run. unfold setattr_self, modify. cbv beta. cbn [self console].
    unfold inbatch_parallel. rewrite bind_run.
    rewrite (init_wells_dispatch src kw ks paths base Hnd Hbase) by done.
    subst results cells made idx. cbn [console].
    destruct (any_action_failed _); [|done].
    unfold bind, emit, modify, raise. cbv beta iota. cbn [self console].
    by rewrite <- app_assoc. }
  eexists. split; [reflexivity|]. rewrite Hrun.
  split; [|split; [|split]].
  - destruct (any_action_failed results); simpl;
      by rewrite lookup_insert_ne, Hbase.
  - destruct (any_action_failed results); simpl; by rewrite lookup_insert_eq.
  - intros Hall.
    assert (Hnone : any_action_failed results = false).
    { apply existsb_false_Forall, Forall_forall. intros r Hr.
      apply list_elem_of_fmap in Hr as (k & -> & Hk).
      destruct (Hall k Hk) as [well ->]. done. }
    by rewrite Hnone.
  - intros k e Hk Hmade.
    assert (Hsome : any_action_failed results = true).
    { apply existsb_true_elem. exists (PExn e). split; [|done].
      apply list_elem_of_fmap. exists k. by rewrite Hmade. }
    by rewrite Hsome.
Qed.

End WorkerInit.

Import Examples.

(** C5, as stated, fails: the second of two workers signals Skip while it is
    built; the construction raises and the Index still holds both keys. *)
Lemma skip_at_init_aborts :
  fst (__init__ load_well [] (PIndex ["A"; "B"] None) None (Some paths_AB) [] fresh)
    = Raise (RuntimeError "Parallel action failed") ∧
  self (snd (__init__ load_well [] (PIndex ["A"; "B"] None) None (Some paths_AB) [] fresh))
    !! "index" = Some (PIndex ["A"; "B"] None).
Proof. split; vm_compute; reflexivity. Qed.

Lemma init_keeps_every_item_witness :
  NoDup ["A"; "B"] ∧
  ∃ w',
    snd (__init__ load_well [1; 0] (PIndex ["A"; "B"] None) None (Some paths_AB) [] fresh) = w' ∧
    self w' !! "index" = Some (PIndex ["A"; "B"] None) ∧
    self w' !! "wells" = Some (PArr [PObj "wells/A.las"; PNone]).
Proof.
  assert (Hnd : NoDup ["A"; "B"]).
  { apply NoDup_cons. split; [set_solver | apply NoDup_singleton]. }
  split; [exact Hnd|].
  destruct (init_keeps_every_item load_well [1; 0] ["A"; "B"] None (Some paths_AB) [] fresh Hnd)
    as (w' & Hrun & Hidx & Hwells & _).
  exists w'. split; [exact Hrun | split; [exact Hidx | exact Hwells]].
Defined.

End WorkerInit.

(** ** The length contract of [WellBatch.get_crops] *)

Module GetCrops.
Import well_batch.
Section GetCrops.
Context {Well Segment : Type}.
Local Abbreviation obj := (pyobj Well).
Local Abbreviation world := (Batchflow.world Well).
Variable iter_level : Well -> list Segment.
Variable segment_getattr : Segment -> string -> option obj.
Variable np_other : list obj -> outcome (list obj).

(** C7. When [src] and [dst] name different numbers of attributes,
    [get_crops] raises a [ValueError] whose message gives both lengths, and
    the state is the one from before the call: no well was read and no
    attribute of the batch was set. *)
Theorem length_mismatch_raises (src dst : str_or_iterable) (w : world) :
  length (to_list src) ≠ length (to_list dst) ->
  get_crops iter_level segment_getattr np_other src dst w =
    (Raise (ValueError ("'src' and 'dst' must be of the same length but "
                        +:+ pretty (length (to_list src)) +:+ " and "
                        +:+ pretty (length (to_list dst)) +:+ " were given")),
     w).
Proof.
  intros Hne. unfold get_crops. by rewrite decide_True.
Qed.

End GetCrops.

Import Examples.

Lemma length_mismatch_raises_witness :
  length (to_list (Str "depth")) ≠ length (to_list (Iterable ["x"; "y"])) ∧
  get_crops one_segment depth_only np_rows (Str "depth") (Iterable ["x"; "y"]) loaded =
    (Raise (ValueError "'src' and 'dst' must be of the same length but 1 and 2 were given"),
     loaded).
Proof.
  assert (H : length (to_list (Str "depth")) ≠ length (to_list (Iterable ["x"; "y"]))).
  { simpl. lia. }
  split; [exact H|].
  apply (length_mismatch_raises one_segment depth_only np_rows (Str "depth") (Iterable ["x"; "y"]) loaded H).
Defined.

End GetCrops.

(** ** Crops of core images: [CoreBatch.crop] and [CoreBatch.random_crop] *)

Module Crops.
Import core_images.
Section Crops.
Context {Image : Type}.
Local Abbreviation obj := (pyobj Image).
Variable shape : Image -> list Z.
Variable rows : Image -> list Image.

Lemma set_slices_shared (n : nat) (length_ : Z) (pos : list Z) :
  ∀ (inner : list pyslice) (j : nat),
    2 ≤ length inner ->
    j + length pos ≤ n ->
    set_slices (SliceLists [inner] (replicate n 0)) j pos length_ =
      Ok (SliceLists
            [match last pos with
             | Some p => <[length inner - 2 := Slice p (p + length_)]> inner
             | None => inner
             end] (replicate n 0)).
Proof.
  induction pos as [|position rest IH]; intros inner j Hlen Hj; [done|].
  simpl in Hj. simpl set_slices. unfold set_slice, and_then. simpl.
  rewrite lookup_replicate_2; [|lia]. simpl.
  rewrite decide_True by done.
  rewrite IH by (rewrite ?length_insert; lia).
  rewrite length_insert. do 3 f_equal.
  destruct rest as [|q rest]; [done|].
  rewrite last_cons_cons. destruct (last (q :: rest)) eqn:E; [|by apply last_None in E].
  by rewrite list_insert_insert_eq.
Qed.

Lemma traverse_ok {A B} (f : A -> outcome B) (g : A -> B) (l : list A) :
  (∀ x, x ∈ l -> f x = Ok (g x)) -> traverse f l = Ok (g <$> l).
Proof.
  induction l as [|x l IH]; intros H; [done|].
  simpl. rewrite H by (by left). rewrite IH; [done|].
  intros y Hy. apply H. by right.
Qed.

Lemma crops_share_one_window (imgs : list obj) (nd : nat) (pos : list Z) (length_ : Z) :
  2 ≤ nd ->
  (∀ img, img ∈ imgs -> ∃ i, img = PObj i ∧ nd ≤ length (shape i)) ->
  (let? slices := set_slices (make_slices nd (length pos)) 0 pos length_ in
   take_crops shape rows (PArr imgs) slices) =
    Ok ((fun img => replicate (length pos) (View img (shared_window nd pos length_))) <$> imgs).
Proof.
  intros Hnd Himgs. unfold make_slices.
  rewrite set_slices_shared by (rewrite ?length_replicate; lia).
  rewrite length_replicate. fold (shared_window nd pos length_).
  unfold and_then, take_crops, iterate. simpl.
  apply traverse_ok. intros img Himg.
  destruct (Himgs img Himg) as (i & -> & Hi).
  rewrite (traverse_ok _ (fun _ => View (PObj i) (shared_window nd pos length_))).
  - f_equal. clear. induction (length pos) as [|n IH]; [done|]. simpl. by f_equal.
  - intros r Hr. apply elem_of_replicate in Hr as [-> _]. simpl.
    unfold getitem, ndim, and_then. rewrite decide_True; [done|].
    unfold shared_window. destruct (last pos);
      rewrite ?length_insert, length_replicate; done.
Qed.

Lemma offset_shared_window (img : obj) (nd : nat) (pos : list Z) (length_ p : Z) :
  2 ≤ nd -> last pos = Some p ->
  offset (View img (shared_window nd pos length_)) = Some p ∧
  shared_window nd pos length_ !! (nd - 2) = Some (Slice p (p + length_)).
Proof.
  intros Hnd Hlast. unfold offset, neg_item, shared_window. simpl. rewrite Hlast.
  rewrite length_insert, length_replicate. rewrite decide_True by done.
  rewrite list_lookup_insert_eq by (rewrite length_replicate; lia). done.
Qed.

Lemma randint_range (high n : Z) (rnd : list Z) :
  (0 < high)%Z -> (0 <= n)%Z ->
  ∃ pos, randint 0 high n rnd = Ok pos ∧ length pos = Z.to_nat n ∧
         ∀ p, p ∈ pos -> (0 <= p < high)%Z.
Proof.
  intros Hhigh Hn. unfold randint.
  rewrite decide_False by lia. rewrite decide_False by lia.
  eexists. split; [done|]. split.
  - by rewrite length_fmap, length_seq.
  - intros p (j & -> & _)%list_elem_of_fmap.
    pose proof (Z.mod_pos_bound (nth j rnd 0%Z) (high - 0)). lia.
Qed.

(** C9. Let [L] be the common image length of an item, the least
    [shape[-2]] over its source images, and let the window length be at
    most [L]. Whatever the generator's output, [random_crop] returns, for
    each image, [n_crops] windows, and each window's slice along the cropped
    axis is [slice(p, p + length)] with [0 <= p <= L - length]. *)
Theorem random_crop_within_bounds (rnd : list Z) (index_ : string)
    (length_ n_crops : Z) (src : option names) (b : batch Image)
    (img0 : Image) (rest : list obj) (L : Z) :
  let imgs := PObj img0 :: rest in
  let nd := length (shape img0) in
  _get_components index_ (default_src src) b = (Ok (PArr imgs), b) ->
  2 ≤ nd ->
  (∀ img, img ∈ imgs -> ∃ i, img = PObj i ∧ nd ≤ length (shape i)) ->
  image_length shape rows (PArr imgs) = Ok L ->
  (length_ <= L)%Z ->
  (0 <= n_crops)%Z ->
  ∃ crops,
    random_crop shape rows rnd index_ length_ n_crops src b = (Ok crops, b) ∧
    length crops = length imgs ∧
    ∀ per_img v, per_img ∈ crops -> v ∈ per_img ->
      length per_img = Z.to_nat n_crops ∧
      ∃ p, offset v = Some p ∧
           neg_item (window v) 2 = Ok (Slice p (p + length_)) ∧
           (0 <= p <= L - length_)%Z.
Proof.
  intros imgs nd Hget Hnd Himgs HL Hlen Hn.
  destruct (randint_range (L - length_ + 1) n_crops rnd) as (pos & Hpos & Hposlen & Hrange);
    [lia | lia |].
  eexists. split; [|split].
  - unfold random_crop. rewrite bind_run, Hget. unfold lift. f_equal.
    unfold first_item, iterate, and_then at 1 2. simpl ndim.
    unfold and_then at 1. fold nd. rewrite HL. unfold and_then at 1.
    rewrite Hpos. unfold and_then at 1. rewrite <- Hposlen.
    apply (crops_share_one_window imgs nd pos length_ Hnd Himgs).
  - by rewrite length_fmap.
  - intros per_img v (img & -> & Himg)%list_elem_of_fmap [-> Hne]%elem_of_replicate.
    split; [by rewrite length_replicate|].
    destruct (last pos) as [p|] eqn:Hlast.
    + exists p. destruct (offset_shared_window img nd pos length_ p Hnd Hlast) as [Hoff Hwin].
      split; [done|]. split.
      * unfold neg_item, shared_window. simpl. rewrite Hlast.
        rewrite length_insert, length_replicate, decide_True by done.
        by rewrite list_lookup_insert_eq by (rewrite length_replicate; lia).
      * apply last_Some_elem_of in Hlast. apply Hrange in Hlast. lia.
    + apply last_None in Hlast. subst pos. done.
Qed.

Lemma arange_strided (L w s : Z) :
  (0 < s)%Z -> (w <= L)%Z ->
  arange 0 (L - w + 1) s =
    Ok ((fun k => 0 + Z.of_nat k * s)%Z <$> seq 0 (Z.to_nat ((L - w) / s + 1))).
Proof.
  intros Hs Hw. unfold arange. rewrite decide_False by lia. do 4 f_equal.
  assert (H : ((0 - (L - w + 1)) / s = - ((L - w) / s + 1))%Z); [|lia].
  symmetry. apply (Z.div_unique _ _ _ (s - 1 - (L - w) mod s)%Z).
  - left. pose proof (Z.mod_pos_bound (L - w) s Hs). lia.
  - pose proof (Z.div_mod (L - w) s). lia.
Qed.

(** What [crop] returns under the conditions of C8: as many windows per
    image as there are strided offsets, each of them at the last offset,
    the largest multiple of [step] that is at most [L - length]. *)
Theorem crop_windows_share_last_offset (index_ : string)
    (length_ step : Z) (src : option names) (b : batch Image)
    (img0 : Image) (rest : list obj) (L : Z) :
  let imgs := PObj img0 :: rest in
  let nd := length (shape img0) in
  _get_components index_ (default_src src) b = (Ok (PArr imgs), b) ->
  2 ≤ nd ->
  (∀ img, img ∈ imgs -> ∃ i, img = PObj i ∧ nd ≤ length (shape i)) ->
  image_length shape rows (PArr imgs) = Ok L ->
  (length_ <= L)%Z ->
  (0 < step)%Z ->
  ∃ crops,
    crop shape rows index_ length_ step src b = (Ok crops, b) ∧
    length crops = length imgs ∧
    ∀ per_img v, per_img ∈ crops -> v ∈ per_img ->
      length per_img = Z.to_nat ((L - length_) / step + 1) ∧
      offset v = Some ((L - length_) / step * step)%Z.
Proof.
  intros imgs nd Hget Hnd Himgs HL Hlen Hstep.
  set (n := Z.to_nat ((L - length_) / step + 1)).
  set (pos := (fun k => 0 + Z.of_nat k * step)%Z <$> seq 0 n).
  assert (Hq : (0 <= (L - length_) / step)%Z) by (apply Z.div_pos; lia).
  assert (Hposlen : length pos = n) by (unfold pos; by rewrite length_fmap, length_seq).
  assert (Hlast : last pos = Some ((L - length_) / step * step)%Z).
  { unfold pos. rewrite fmap_last.
    replace n with (S (Z.to_nat ((L - length_) / step))) by (unfold n; lia).
    rewrite seq_S, last_snoc. simpl. f_equal. lia. }
  eexists. split; [|split].
  - unfold crop. rewrite bind_run, Hget. unfold lift. f_equal.
    rewrite HL. unfold and_then at 1.
    rewrite (arange_strided L length_ step Hstep Hlen). fold n pos.
    unfold and_then at 1. unfold first_item, iterate, and_then at 1 2. simpl ndim.
    unfold and_then at 1. fold nd.
    apply (crops_share_one_window imgs nd pos length_ Hnd Himgs).
  - by rewrite length_fmap.
  - intros per_img v (img & -> & Himg)%list_elem_of_fmap [-> Hne]%elem_of_replicate.
    split; [by rewrite length_replicate|].
    by destruct (offset_shared_window img nd pos length_ _ Hnd Hlast).
Qed.

End Crops.

Import Examples.

Lemma random_crop_within_bounds_witness :
  ∃ crops : list (list (view (list Z))),
    random_crop shape_of_image no_rows [5; 13; 2]%Z "c1" 4 3 None four_cores
      = (Ok crops, four_cores) ∧
    ∀ per_img v, per_img ∈ crops -> v ∈ per_img ->
      ∃ p, offset v = Some p ∧ (0 <= p <= 10 - 4)%Z.
Proof.
  destruct (random_crop_within_bounds shape_of_image no_rows [5; 13; 2]%Z "c1" 4 3 None
              four_cores [10; 6]%Z [uv_image] 10) as (crops & Hrun & _ & Hall).
  - reflexivity.
  - simpl. lia.
  - intros img [->|Hin]%elem_of_cons.
    + exists [10; 6]%Z. split; [reflexivity | simpl; lia].
    + apply list_elem_of_singleton in Hin as ->.
      exists [12; 6]%Z. split; [reflexivity | simpl; lia].
  - reflexivity.
  - lia.
  - lia.
  - exists crops. split; [exact Hrun|].
    intros per_img v Hp Hv. destruct (Hall per_img v Hp Hv) as (_ & p & Hoff & _ & Hb).
    exists p. split; [exact Hoff | exact Hb].
Defined.

(** C8 fails on the code. For an item of common length 10, window length 4
    and step 3, the claim asks for windows at offsets 0, 3 and 6; [crop]
    returns three windows per image and all of them sit at offset 6. *)
Lemma strided_crop_repeats_last_window :
  ∃ crops : list (list (view (list Z))),
    crop shape_of_image no_rows "c1" 4 3 None four_cores = (Ok crops, four_cores) ∧
    offsets crops = [[Some 6; Some 6; Some 6]; [Some 6; Some 6; Some 6]]%Z.
Proof. eexists. split; vm_compute; reflexivity. Qed.

End Crops.

(** ** [CoreBatch.shuffle_images] *)

Module Shuffle.
Import core_images.
Section Shuffle.
Context {Image Float : Type}.
Local Abbreviation obj := (pyobj Image).
Local Abbreviation batch := (core_images.batch Image).
Variable n_permutations : nat -> Float -> Z.

Lemma find_pos_elem (ks : list string) (k : string) :
  k ∈ ks -> ∃ p, find_pos ks k = Ok p ∧ p < length ks.
Proof.
  intros Hk. unfold find_pos.
  destruct (list_find (fun k' => k' = k) ks) as [[p k']|] eqn:Hfind.
  - apply list_find_Some in Hfind as (Hp & _ & _).
    exists p. split; [done|]. by eapply lookup_lt_Some.
  - apply list_find_None in Hfind. rewrite Forall_forall in Hfind.
    exfalso. by eapply Hfind.
Qed.

Lemma draw_subseteq {A} (n : nat) : ∀ (pool : list A) (rnd : list nat) x,
  x ∈ draw pool n rnd -> x ∈ pool.
Proof.
  induction n as [|n IH]; intros pool rnd x; simpl; [by intros ?%not_elem_of_nil|].
  destruct (pool !! (hd 0 rnd mod length pool)) as [y|] eqn:Hy;
    [|by intros ?%not_elem_of_nil].
  intros [->|Hx]%elem_of_cons.
  - by eapply list_elem_of_lookup_2.
  - apply IH in Hx. by eapply list_elem_of_delete_inv.
Qed.

Section Frame.
Variables (ks : list string) (at_ : gmap string nat).
Variables (a_dl a_uv a_lab : nat).
Hypothesis Hdl : at_ !! "dl" = Some a_dl.
Hypothesis Huv : at_ !! "uv" = Some a_uv.
Hypothesis Hlab : at_ !! "labels" = Some a_lab.
Hypothesis Hne1 : a_dl ≠ a_uv.
Hypothesis Hne2 : a_dl ≠ a_lab.
Hypothesis Hne3 : a_uv ≠ a_lab.

Lemma get_component_one (hp : gmap nat (list obj)) (c k : string) (a p : nat)
    (l : list obj) (x : obj) :
  find_pos ks k = Ok p -> at_ !! c = Some a -> hp !! a = Some l -> l !! p = Some x ->
  _get_components k (Some (Name c)) (Batch ks at_ hp) = (Ok x, Batch ks at_ hp).
Proof.
  intros Hp Ha Hl Hx. unfold _get_components.
  change ([c] !! 0) with (Some c). rewrite bind_run. unfold ret at 1. cbv beta iota.
  rewrite bind_run. unfold get_pos at 1. cbn [index]. rewrite Hp. cbv beta iota.
  rewrite bind_run. simpl for_list. rewrite !bind_run.
  unfold getattr_self at 1. cbn [attrs]. rewrite Ha. cbv beta iota.
  unfold load_item at 1. cbn [heap]. rewrite Hl, Hx. done.
Qed.

Lemma store_item_ok (hp : gmap nat (list obj)) (a p : nat) (l : list obj) (v : obj) :
  hp !! a = Some l -> p < length l ->
  store_item a p v (Batch ks at_ hp) = (Ok tt, Batch ks at_ (<[a := <[p := v]> l]> hp)).
Proof.
  intros Hl Hp. unfold store_item. cbn [heap index attrs]. rewrite Hl.
  by rewrite decide_True.
Qed.

Lemma swap_pair_run (hp : gmap nat (list obj)) (i j : string) (pi pj : nat)
    (uv labels : list obj) :
  i ≠ j ->
  find_pos ks i = Ok pi -> find_pos ks j = Ok pj ->
  hp !! a_uv = Some uv -> hp !! a_lab = Some labels ->
  pi < length uv -> pj < length uv -> pi < length labels -> pj < length labels ->
  ∃ xi xj,
    uv !! pi = Some xi ∧ uv !! pj = Some xj ∧
    swap_pair components components (i, j) (Batch ks at_ hp) =
      (Ok tt,
       Batch ks at_
         (<[a_lab := <[pj := PInt 1]> (<[pi := PInt 1]> labels)]>
            (<[a_uv := <[pj := xi]> (<[pi := xj]> uv)]> hp))).
Proof.
  intros Hij Hpi Hpj Huvl Hlabl Hi1 Hj1 Hi2 Hj2.
  destruct (lookup_lt_is_Some_2 uv pi Hi1) as [xi Hxi].
  destruct (lookup_lt_is_Some_2 uv pj Hj1) as [xj Hxj].
  exists xi, xj. split; [done|]. split; [done|].
  unfold swap_pair. rewrite decide_True by done.
  change (item components 1) with (@Ok string "uv").
  change (item components 0) with (@Ok string "dl").
  change (item components 2) with (@Ok string "labels").
  assert (Hget : ∀ (b : batch) (n : string) (a : nat),
            attrs b !! n = Some a -> getattr_self n b = (Ok a, b)).
  { intros b n a H. unfold getattr_self. by rewrite H. }
  assert (Hpos : ∀ (b : batch) c k p,
            find_pos (index b) k = Ok p -> get_pos c k b = (Ok p, b)).
  { intros b c k p H. unfold get_pos. by rewrite H. }
  rewrite bind_run. unfold lift at 1. cbv beta iota.
  rewrite bind_run, (get_component_one hp "uv" i a_uv pi uv xi) by done. cbv beta iota.
  rewrite bind_run. unfold lift at 1. cbv beta iota.
  rewrite bind_run, (get_component_one hp "uv" j a_uv pj uv xj) by done. cbv beta iota.
  rewrite bind_run. unfold lift at 1. cbv beta iota.
  rewrite bind_run, (Hget _ "uv" a_uv) by done. cbv beta iota.
  rewrite bind_run. unfold lift at 1. cbv beta iota.
  rewrite bind_run, (Hpos _ "dl" i pi) by done. cbv beta iota.
  rewrite bind_run, (store_item_ok hp a_uv pi uv xj) by done. cbv beta iota.
  set (hp1 := <[a_uv := <[pi := xj]> uv]> hp).
  rewrite bind_run. unfold lift at 1. cbv beta iota.
  rewrite bind_run, (Hget _ "uv" a_uv) by done. cbv beta iota.
  rewrite bind_run. unfold lift at 1. cbv beta iota.
  rewrite bind_run, (Hpos _ "dl" j pj) by done. cbv beta iota.
  rewrite bind_run, (store_item_ok hp1 a_uv pj (<[pi := xj]> uv) xi);
    [| by apply lookup_insert_eq | by rewrite length_insert]. cbv beta iota.
  set (hp2 := <[a_uv := <[pj := xi]> (<[pi := xj]> uv)]> hp1).
  assert (Hlab2 : hp2 !! a_lab = Some labels).
  { unfold hp2, hp1. by rewrite !lookup_insert_ne. }
  rewrite bind_run. unfold lift at 1. cbv beta iota.
  rewrite bind_run, (Hget _ "labels" a_lab) by done. cbv beta iota.
  rewrite bind_run. unfold lift at 1. cbv beta iota.
  rewrite bind_run, (Hpos _ "dl" i pi) by done. cbv beta iota.
  rewrite bind_run, (store_item_ok hp2 a_lab pi labels (PInt 1)) by done. cbv beta iota.
  set (hp3 := <[a_lab := <[pi := PInt 1]> labels]> hp2).
  rewrite bind_run. unfold lift at 1. cbv beta iota.
  rewrite bind_run, (Hget _ "labels" a_lab) by done. cbv beta iota.
  rewrite bind_run. unfold lift at 1. cbv beta iota.
  rewrite bind_run, (Hpos _ "dl" j pj) by done. cbv beta iota.
  rewrite (store_item_ok hp3 a_lab pj (<[pi := PInt 1]> labels) (PInt 1));
    [| by apply lookup_insert_eq | by rewrite length_insert].
  unfold hp3, hp2, hp1. by rewrite !insert_insert_eq.
Qed.

Lemma swap_loop (pairs : list (string * string)) :
  ∀ (hp : gmap nat (list obj)) (uv labels : list obj),
    hp !! a_uv = Some uv -> hp !! a_lab = Some labels ->
    length uv = length ks -> length labels = length ks ->
    (∀ i j, (i, j) ∈ pairs -> i ∈ ks ∧ j ∈ ks) ->
    ∃ hp' uv' labels',
      for_each pairs (swap_pair components components) (Batch ks at_ hp)
        = (Ok tt, Batch ks at_ hp') ∧
      hp' !! a_uv = Some uv' ∧ hp' !! a_lab = Some labels' ∧
      length uv' = length ks ∧ length labels' = length ks ∧
      (∀ a, a ≠ a_uv -> a ≠ a_lab -> hp' !! a = hp !! a) ∧
      (∀ p, p ∉ swapped_positions ks pairs ->
         uv' !! p = uv !! p ∧ labels' !! p = labels !! p) ∧
      (∀ p, p ∈ swapped_positions ks pairs -> labels' !! p = Some (PInt 1)).
Proof.
  induction pairs as [|[i j] rest IH]; intros hp uv labels Huvl Hlabl Hlu Hll Hin.
  - exists hp, uv, labels. repeat split; try done.
    intros p Hp. by apply not_elem_of_nil in Hp.
  - assert (Hin' : ∀ i' j', (i', j') ∈ rest -> i' ∈ ks ∧ j' ∈ ks).
    { intros i' j' H. apply Hin. by right. }
    change (for_each ((i, j) :: rest) (swap_pair components components))
      with (bind (swap_pair (Image:=Image) components components (i, j))
              (fun _ => for_each rest (swap_pair components components))).
    rewrite bind_run.
    unfold swapped_positions. simpl flat_map. fold (swapped_positions ks rest).
    cbn [fst snd].
    destruct (decide (i = j)) as [->|Hij].
    + unfold swap_pair. rewrite decide_False by (intros H; by apply H).
      unfold ret at 1. cbv beta iota.
      destruct (IH hp uv labels) as (hp' & uv' & labels' & Hrest & H); try done.
      exists hp', uv', labels'. split; [done|]. exact H.
    + destruct (Hin i j) as [Hi Hj]; [by left|].
      destruct (find_pos_elem ks i Hi) as (pi & Hpi & Hpil).
      destruct (find_pos_elem ks j Hj) as (pj & Hpj & Hpjl).
      destruct (swap_pair_run hp i j pi pj uv labels) as (xi & xj & Hxi & Hxj & Hrun);
        try done; try lia.
      rewrite Hrun. cbv beta iota.
      set (uv1 := <[pj := xi]> (<[pi := xj]> uv)) in *.
      set (labels1 := <[pj := PInt 1]> (<[pi := PInt 1]> labels)) in *.
      destruct (IH (<[a_lab := labels1]> (<[a_uv := uv1]> hp)) uv1 labels1)
        as (hp' & uv' & labels' & Hrest & Huv' & Hlab' & Hlu' & Hll' & Hother & Hout & Hone);
        try done.
      { rewrite lookup_insert_ne by done. apply lookup_insert_eq. }
      { apply lookup_insert_eq. }
      { unfold uv1. by rewrite !length_insert. }
      { unfold labels1. by rewrite !length_insert. }
      exists hp', uv', labels'. split; [done|].
      split; [done|]. split; [done|]. split; [done|]. split; [done|].
      unfold position. rewrite Hpi, Hpj. simpl omap.
      split; [|split].
      * intros a Ha1 Ha2. rewrite Hother by done. by rewrite !lookup_insert_ne.
      * intros p Hp.
        assert (p ≠ pi ∧ p ≠ pj ∧ p ∉ swapped_positions ks rest) as (Hp1 & Hp2 & Hp3).
        { repeat split; intros ?; apply Hp; set_solver. }
        destruct (Hout p Hp3) as [-> ->]. unfold uv1, labels1.
        by rewrite !list_lookup_insert_ne.
      * intros p Hp.
        destruct (decide (p ∈ swapped_positions ks rest)) as [Hr|Hr]; [by apply Hone|].
        destruct (Hout p Hr) as [_ ->]. unfold labels1.
        assert (p = pi ∨ p = pj) as [->| ->] by set_solver.
        -- destruct (decide (pi = pj)) as [->|Hne].
           ++ apply list_lookup_insert_eq. rewrite length_insert. lia.
           ++ rewrite list_lookup_insert_ne by done.
              apply list_lookup_insert_eq. lia.
        -- apply list_lookup_insert_eq. rewrite length_insert. lia.
Qed.

End Frame.

(** C10. On a batch whose [dl], [uv] and [labels] are three distinct
    arrays, [uv] and [labels] as long as the Index, [shuffle_images] with
    the default [src] and [dst] leaves the Index, the attribute bindings and
    the [dl] array as they were; [uv] and [labels] keep their lengths and
    change at most at the positions of the swapped pairs, where every label
    is 1. This holds for every generator output, every [proba] and whatever
    the floating-point count of permutations comes to; the call returns
    normally when that count fits the batch. *)
Theorem shuffle_touches_only_swapped_uv_and_labels (rnd : list nat) (proba : Float)
    (b : batch) (a_dl a_uv a_lab : nat) (dl uv labels : list obj) :
  attrs b !! "dl" = Some a_dl ->
  attrs b !! "uv" = Some a_uv ->
  attrs b !! "labels" = Some a_lab ->
  a_dl ≠ a_uv -> a_dl ≠ a_lab -> a_uv ≠ a_lab ->
  heap b !! a_dl = Some dl ->
  heap b !! a_uv = Some uv ->
  heap b !! a_lab = Some labels ->
  length uv = length (index b) ->
  length labels = length (index b) ->
  let n := n_permutations (length (index b)) proba in
  let swapped :=
    match choice (index b) n rnd with
    | Ok shuffled =>
        swapped_positions (index b) (zip (take (Z.to_nat n) (index b)) shuffled)
    | Raise _ => []
    end in
  ∃ o b',
    shuffle_images n_permutations rnd proba None None b = (o, b') ∧
    ((0 <= n <= Z.of_nat (length (index b)))%Z -> o = Ok tt) ∧
    index b' = index b ∧
    attrs b' = attrs b ∧
    heap b' !! a_dl = Some dl ∧
    ∃ uv' labels',
      heap b' !! a_uv = Some uv' ∧ heap b' !! a_lab = Some labels' ∧
      length uv' = length uv ∧ length labels' = length labels ∧
      (∀ p, p ∉ swapped -> uv' !! p = uv !! p ∧ labels' !! p = labels !! p) ∧
      (∀ p, p ∈ swapped -> labels' !! p = Some (PInt 1)).
Proof.
  destruct b as [ks at_ hp]. cbn [index attrs heap].
  intros Hdl Huv Hlab Hne1 Hne2 Hne3 Hdll Huvl Hlabl Hlu Hll.
  set (n := n_permutations (length ks) proba).
  unfold shuffle_images. rewrite bind_run. unfold get at 1. cbv beta iota.
  cbn [index]. fold n. rewrite bind_run. unfold lift at 1.
  unfold choice.
  destruct (decide (n < 0)%Z) as [Hneg|Hnonneg].
  { eexists _, _. split; [done|]. split; [lia|]. repeat split; try done.
    exists uv, labels. repeat split; try done. intros p Hp. by apply not_elem_of_nil in Hp. }
  destruct (decide (Z.of_nat (length ks) < n)%Z) as [Hbig|Hsmall].
  { eexists _, _. split; [done|]. split; [lia|]. repeat split; try done.
    exists uv, labels. repeat split; try done. intros p Hp. by apply not_elem_of_nil in Hp. }
  cbv beta iota.
  set (shuffled := draw ks (Z.to_nat n) rnd).
  change (default components None) with components.
  assert (Hre : for_each (imap (fun i component => (i, component)) components)
            (fun '(i, component) =>
               let* d := lift (item components i) in
               let* a := getattr_self component in
               setattr_self d a) (Batch ks at_ hp) = (Ok tt, Batch ks at_ hp)).
  { assert (Hone : ∀ i c a, item components i = Ok c -> at_ !! c = Some a ->
              (let* d := lift (item components i) in
               let* a := getattr_self c in
               setattr_self d a) (Batch ks at_ hp) = (Ok tt, Batch ks at_ hp)).
    { intros i c a Hi Ha. rewrite bind_run. unfold lift at 1. rewrite Hi. cbv beta iota.
      rewrite bind_run. unfold getattr_self at 1. cbn [attrs]. rewrite Ha. cbv beta iota.
      unfold setattr_self, modify. cbn [index attrs heap]. by rewrite insert_id. }
    simpl imap. simpl for_each.
    rewrite bind_run, (Hone 0 "dl" a_dl) by done. cbv beta iota.
    rewrite bind_run, (Hone 1 "uv" a_uv) by done. cbv beta iota.
    rewrite bind_run, (Hone 2 "labels" a_lab) by done. done. }
  rewrite bind_run, Hre. cbv beta iota.
  rewrite bind_run. unfold get at 1. cbv beta iota. cbn [index].
  destruct (swap_loop ks at_ a_dl a_uv a_lab Hdl Huv Hlab Hne1 Hne2 Hne3
              (zip (take (Z.to_nat n) ks) shuffled) hp uv labels)
    as (hp' & uv' & labels' & Hrun & Huv' & Hlab' & Hlu' & Hll' & Hother & Hout & Hone);
    try done.
  { intros i j Hij. split.
    - apply elem_of_zip_l in Hij. eapply elem_of_sublist; [exact Hij | apply sublist_take].
    - apply elem_of_zip_r in Hij. by eapply draw_subseteq. }
  rewrite Hrun. eexists _, _. split; [done|]. split; [done|].
  cbn [index attrs heap]. split; [done|]. split; [done|].
  split; [by rewrite Hother|].
  exists uv', labels'. split; [done|]. split; [done|].
  split; [lia|]. split; [lia|]. by split.
Qed.

End Shuffle.

Import Examples.

Lemma shuffle_touches_only_swapped_uv_and_labels_witness :
  ∃ o b',
    shuffle_images rational_n_permutations [2; 0; 1] (Qmake 1 1) None None four_cores
      = (o, b') ∧
    o = Ok tt ∧
    index b' = index four_cores ∧
    heap b' !! 0 = Some (replicate 4 dl_image).
Proof.
  destruct (shuffle_touches_only_swapped_uv_and_labels rational_n_permutations
              [2; 0; 1] (Qmake 1 1) four_cores
              0 1 2 (replicate 4 dl_image) (replicate 4 uv_image) (replicate 4 (PInt 0)))
    as (o & b' & Hrun & Hok & Hidx & _ & Hdl & _);
    [reflexivity | reflexivity | reflexivity | lia | lia | lia
    | reflexivity | reflexivity | reflexivity | reflexivity | reflexivity |].
  exists o, b'. split; [exact Hrun|]. split; [|split; [exact Hidx | exact Hdl]].
  apply Hok. vm_compute. split; discriminate.
Defined.

End Shuffle.

(** Membership in a list given in full is refuted entry by entry. *)
Ltac absent :=
  let H := fresh in
  intros H; repeat (apply elem_of_cons in H as [H|H]; [discriminate H|]);
  by apply not_elem_of_nil in H.

(** ** Paths and keys of core images: [_get_uv_path] and [CoreIndex.build_key] *)

Module Paths.
Import posixpath core_images.
Section Paths.
Implicit Types (a b p f h : str) (c : ascii).

Lemma rfind_from_app c a b i found :
  rfind_from c (a ++ b) i found = rfind_from c b (i + length a) (rfind_from c a i found).
Proof.
  revert i found. induction a as [|x a IH]; intros i found; simpl.
  - by rewrite Nat.add_0_r.
  - rewrite IH. f_equal. lia.
Qed.

Lemma rfind_from_absent c b i found : c ∉ b -> rfind_from c b i found = found.
Proof.
  revert i found. induction b as [|x b IH]; intros i found Hc; [done|].
  simpl. apply not_elem_of_cons in Hc as [Hx Hb].
  rewrite decide_False by done. by apply IH.
Qed.

Lemma rfind_last c a b : c ∉ b -> rfind c (a ++ c :: b) = Z.of_nat (length a).
Proof.
  intros Hb. unfold rfind. rewrite rfind_from_app. simpl.
  rewrite decide_True by done. by rewrite rfind_from_absent.
Qed.

Lemma rfind_absent c b : c ∉ b -> rfind c b = (-1)%Z.
Proof. apply rfind_from_absent. Qed.

Lemma rstrip_keep c h : last h ≠ Some c -> h ≠ [] -> rstrip c h = h.
Proof.
  induction h as [|x h IH]; intros Hlast Hne; [done|].
  destruct h as [|y h'].
  - simpl in *. rewrite decide_False; [done|]. intros ->. by apply Hlast.
  - rewrite last_cons_cons in Hlast. specialize (IH Hlast).
    change (rstrip c (x :: y :: h')) with
      (match rstrip c (y :: h') with
       | [] => if decide (x = c) then [] else [x]
       | r => x :: r end).
    rewrite IH by done. done.
Qed.

Lemma rstrip_snoc c h : rstrip c (h ++ [c]) = rstrip c h.
Proof.
  induction h as [|x h IH]; simpl.
  - by rewrite decide_True.
  - by rewrite IH.
Qed.

(** Splitting a directory and a file name joined by one slash. *)
Lemma split_dir_file h f :
  h ≠ [] -> last h ≠ Some sep -> sep ∉ f -> split (h ++ sep :: f) = (h, f).
Proof.
  intros Hne Hlast Hf. unfold split. rewrite rfind_last by done.
  replace (Z.to_nat (Z.of_nat (length h) + 1)) with (length (h ++ [sep]))
    by (rewrite length_app; simpl; lia).
  replace (h ++ sep :: f) with ((h ++ [sep]) ++ f) by (by rewrite <- app_assoc).
  rewrite take_app_length, drop_app_length.
  rewrite decide_True.
  - by rewrite rstrip_snoc, rstrip_keep.
  - split; [by destruct h|]. intros Hall.
    destruct h as [|x h'] using rev_ind; [done|]. clear IHh'.
    rewrite last_snoc in Hlast.
    assert (Hx : x ∈ replicate (length ((h' ++ [x]) ++ [sep])) sep).
    { rewrite <- Hall. set_solver. }
    apply elem_of_replicate in Hx as [-> _]. done.
Qed.

(** A bare file name has an empty directory. *)
Lemma split_bare f : sep ∉ f -> split f = ([], f).
Proof.
  intros Hf. unfold split. by rewrite rfind_absent.
Qed.

Lemma split_snd pre f :
  pre = [] ∨ last pre = Some sep -> sep ∉ f -> (split (pre ++ f)).2 = f.
Proof.
  intros Hpre Hf.
  assert (Hi : Z.to_nat (rfind sep (pre ++ f) + 1) = length pre).
  { destruct Hpre as [->|Hlast].
    - simpl. by rewrite rfind_absent.
    - destruct pre as [|x r _] using rev_ind; [done|].
      rewrite last_snoc in Hlast. injection Hlast as ->.
      rewrite <- app_assoc. simpl. rewrite rfind_last by done.
      rewrite length_app. simpl. lia. }
  unfold split. rewrite Hi. case_decide; simpl; by rewrite drop_app_length.
Qed.

Lemma last_app_nonempty {A} (l1 l2 : list A) : l2 ≠ [] -> last (l1 ++ l2) = last l2.
Proof.
  intros H. destruct l2 as [|x l2 _] using rev_ind; [done|].
  by rewrite app_assoc, !last_snoc.
Qed.

Lemma last_slash_free f : f ≠ [] -> sep ∉ f -> last f ≠ Some sep.
Proof.
  intros Hne Hf Hlast. apply Hf. by apply last_Some_elem_of.
Qed.

Lemma join_dir_file a f :
  a ≠ [] -> last a ≠ Some sep -> sep ∉ f -> join a f = a ++ sep :: f.
Proof.
  intros Ha Hlast Hf. unfold join.
  rewrite decide_False.
  - rewrite decide_False; [done|]. intros [?|?]; done.
  - intros Hh. apply Hf. destruct f; [done|]. injection Hh as ->. by left.
Qed.

Lemma get_uv_path_dir_file h f :
  h ≠ [] -> last h ≠ Some sep -> sep ∉ f ->
  _get_uv_path (h ++ sep :: f) = take (length h - 2) h ++ ["u"; "v"; sep]%char ++ f.
Proof.
  intros Hne Hlast Hf. unfold _get_uv_path. rewrite split_dir_file by done. simpl.
  rewrite join_dir_file; [by rewrite <- app_assoc | | | done].
  - by destruct (take (length h - 2) h).
  - by rewrite last_app_nonempty.
Qed.

Lemma get_uv_path_two_chars d (c1 c2 : ascii) f :
  c2 ≠ sep -> sep ∉ f ->
  _get_uv_path (d ++ [c1; c2; sep] ++ f) = d ++ ["u"; "v"; sep]%char ++ f.
Proof.
  intros Hc Hf.
  replace (d ++ [c1; c2; sep] ++ f) with ((d ++ [c1; c2]) ++ sep :: f)
    by (by rewrite <- app_assoc).
  rewrite get_uv_path_dir_file; [| by destruct d | | done].
  - rewrite length_app. simpl.
    replace (length d + 2 - 2) with (length d) by lia. by rewrite take_app_length.
  - rewrite last_app_nonempty by done. simpl. congruence.
Qed.

(** X1. [_get_uv_path] sends [<dir><c1><c2>/<file>] to [<dir>uv/<file>]:
    the last two characters of the folder are replaced by "uv" whatever
    they are (the folder is not checked to end in "dl"), and the file name
    is kept. In particular [<dir>dl/<file>] goes to [<dir>uv/<file>]. *)
Theorem uv_path_replaces_folder_suffix d (c1 c2 : ascii) f :
  c2 ≠ sep -> sep ∉ f ->
  _get_uv_path (d ++ [c1; c2; sep] ++ f) = d ++ ["u"; "v"; sep]%char ++ f.
Proof. apply get_uv_path_two_chars. Qed.

(** X2. A path with no folder is sent to the folder [uv]:
    [_get_uv_path(<file>)] is [uv/<file>]. *)
Theorem uv_path_of_bare_name f :
  sep ∉ f -> _get_uv_path f = ["u"; "v"; sep]%char ++ f.
Proof.
  intros Hf. unfold _get_uv_path. rewrite split_bare by done. simpl.
  by rewrite join_dir_file.
Qed.

(** The key before the extension is cut. *)
Lemma build_key_parts pre well folder file no_ext :
  pre = [] ∨ last pre = Some sep ->
  well ≠ [] -> folder ≠ [] -> sep ∉ well -> sep ∉ folder -> sep ∉ file ->
  let path := pre ++ well ++ sep :: folder ++ sep :: file in
  let key := well ++ "_"%char :: file in
  build_key path no_ext =
    (if no_ext then
       take (Z.to_nat (if decide (0 < rfind "."%char key)%Z then rfind "."%char key
                       else Z.of_nat (length key))) key
     else key, path).
Proof.
  intros Hpre Hw Hfo Hsw Hsfo Hsfi path key. unfold build_key.
  assert (H1 : split path = (pre ++ well ++ sep :: folder, file)).
  { unfold path.
    replace (pre ++ well ++ sep :: folder ++ sep :: file)
      with ((pre ++ well ++ sep :: folder) ++ sep :: file) by (by rewrite <- !app_assoc).
    apply split_dir_file; [| | done].
    - by destruct pre, well.
    - rewrite app_assoc. change (sep :: folder) with ([sep] ++ folder).
      rewrite app_assoc, last_app_nonempty by done.
      by apply last_slash_free. }
  rewrite H1. cbn [fst snd].
  assert (H2 : split (pre ++ well ++ sep :: folder) = (pre ++ well, folder)).
  { rewrite app_assoc. apply split_dir_file; [| | done].
    - by destruct pre, well.
    - rewrite last_app_nonempty by done. by apply last_slash_free. }
  rewrite H2. cbn [fst snd].
  rewrite (split_snd pre well) by done. done.
Qed.

(** X3. For a path that ends in [<well>/<folder>/<file>], [build_key]
    without [no_ext] returns the key [<well>_<file>], whatever the folder
    is called, together with the unchanged path. *)
Theorem build_key_is_well_and_file pre well folder file :
  pre = [] ∨ last pre = Some sep ->
  well ≠ [] -> folder ≠ [] -> sep ∉ well -> sep ∉ folder -> sep ∉ file ->
  build_key (pre ++ well ++ sep :: folder ++ sep :: file) false =
    (well ++ "_"%char :: file, pre ++ well ++ sep :: folder ++ sep :: file).
Proof. intros. by rewrite build_key_parts. Qed.

(** X4. With [no_ext], the key of [<well>/<folder>/<stem>.<ext>] is
    [<well>_<stem>]: the key is cut at its last dot. *)
Theorem build_key_no_ext_cuts_extension pre well folder stem ext :
  pre = [] ∨ last pre = Some sep ->
  well ≠ [] -> folder ≠ [] -> sep ∉ well -> sep ∉ folder ->
  sep ∉ stem -> sep ∉ ext -> "."%char ∉ ext ->
  (build_key (pre ++ well ++ sep :: folder ++ sep :: stem ++ "."%char :: ext) true).1 =
    well ++ "_"%char :: stem.
Proof.
  intros Hpre Hw Hfo Hsw Hsfo Hss Hse Hde.
  rewrite build_key_parts; try done.
  - cbn [fst].
    replace (well ++ "_"%char :: stem ++ "."%char :: ext)
      with ((well ++ "_"%char :: stem) ++ "."%char :: ext) by (by rewrite <- app_assoc).
    rewrite rfind_last by done.
    rewrite decide_True by (destruct well; [done | simpl; lia]).
    by rewrite Nat2Z.id, take_app_length.
  - rewrite elem_of_app, elem_of_cons. intros [?|[?|?]]; done.
Qed.

(** X5. With [no_ext], when the file name has no dot but the well name
    [<a>.<b>] has one, the key is cut at the well name's last dot: it is
    [<a>], and the file name is lost. *)
Theorem build_key_no_ext_cuts_dotted_well pre a b folder file :
  pre = [] ∨ last pre = Some sep ->
  a ≠ [] -> folder ≠ [] ->
  sep ∉ a -> sep ∉ b -> sep ∉ folder -> sep ∉ file ->
  "."%char ∉ b -> "."%char ∉ file ->
  (build_key (pre ++ (a ++ "."%char :: b) ++ sep :: folder ++ sep :: file) true).1 = a.
Proof.
  intros Hpre Ha Hfo Hsa Hsb Hsfo Hsfi Hdb Hdf.
  rewrite build_key_parts; try done.
  - cbn [fst]. rewrite <- app_assoc. simpl.
    rewrite rfind_last.
    + rewrite decide_True by (destruct a; [done | simpl; lia]).
      by rewrite Nat2Z.id, take_app_length.
    + rewrite elem_of_app, elem_of_cons. intros [?|[?|?]]; done.
  - by destruct a.
  - rewrite elem_of_app, elem_of_cons. intros [?|[?|?]]; done.
Qed.

(** X6. The DL image [<well>/<d>dl/<file>] and the UV image path that
    [_get_uv_path] derives from it get the same key from [build_key]. *)
Theorem uv_image_has_the_key_of_its_dl_image pre well d file no_ext :
  pre = [] ∨ last pre = Some sep ->
  well ≠ [] -> sep ∉ well -> sep ∉ d -> sep ∉ file ->
  let path_dl := pre ++ well ++ sep :: (d ++ ["d"; "l"]%char) ++ sep :: file in
  (build_key (_get_uv_path path_dl) no_ext).1 = (build_key path_dl no_ext).1.
Proof.
  intros Hpre Hw Hsw Hsd Hsf path_dl.
  assert (Huv : _get_uv_path path_dl
                = pre ++ well ++ sep :: (d ++ ["u"; "v"]%char) ++ sep :: file).
  { unfold path_dl.
    replace (pre ++ well ++ sep :: (d ++ ["d"; "l"]%char) ++ sep :: file)
      with ((pre ++ well ++ sep :: d) ++ ["d"; "l"; sep]%char ++ file)
      by (rewrite <- ?app_assoc; simpl; rewrite <- ?app_assoc; done).
    rewrite get_uv_path_two_chars by done.
    rewrite <- ?app_assoc. simpl. by rewrite <- ?app_assoc. }
  rewrite Huv. unfold path_dl.
  rewrite !build_key_parts; try done; try (by destruct d).
  all: rewrite elem_of_app; intros [?|H]; [done|];
       repeat (apply elem_of_cons in H as [H|H]; [done|]); by apply not_elem_of_nil in H.
Qed.
End Paths.

Lemma uv_path_replaces_folder_suffix_witness :
  _get_uv_path ["w"; "/"; "d"; "l"; "/"; "a"]%char = ["w"; "/"; "u"; "v"; "/"; "a"]%char.
Proof.
  apply (uv_path_replaces_folder_suffix ["w"; "/"]%char "d" "l" ["a"]%char);
    [discriminate | absent].
Defined.

Lemma uv_path_of_bare_name_witness :
  _get_uv_path ["a"]%char = ["u"; "v"; "/"; "a"]%char.
Proof. apply (uv_path_of_bare_name ["a"]%char). absent. Defined.

Lemma build_key_is_well_and_file_witness :
  build_key ["d"; "/"; "w"; "/"; "s"; "/"; "a"]%char false
  = (["w"; "_"; "a"]%char, ["d"; "/"; "w"; "/"; "s"; "/"; "a"]%char).
Proof.
  apply (build_key_is_well_and_file ["d"; "/"]%char ["w"]%char ["s"]%char ["a"]%char);
    [by right | discriminate | discriminate | absent | absent | absent].
Defined.

Lemma build_key_no_ext_cuts_extension_witness :
  (build_key ["d"; "/"; "w"; "/"; "s"; "/"; "a"; "."; "p"]%char true).1
  = ["w"; "_"; "a"]%char.
Proof.
  apply (build_key_no_ext_cuts_extension ["d"; "/"]%char ["w"]%char ["s"]%char
           ["a"]%char ["p"]%char);
    [by right | discriminate | discriminate | absent | absent | absent | absent | absent].
Defined.

Lemma build_key_no_ext_cuts_dotted_well_witness :
  (build_key ["w"; "."; "1"; "/"; "s"; "/"; "a"]%char true).1 = ["w"]%char.
Proof.
  apply (build_key_no_ext_cuts_dotted_well [] ["w"]%char ["1"]%char ["s"]%char ["a"]%char);
    [by left | discriminate | discriminate | absent | absent | absent | absent
    | absent | absent].
Defined.

Lemma uv_image_has_the_key_of_its_dl_image_witness :
  (build_key (_get_uv_path ["w"; "/"; "s"; "d"; "l"; "/"; "a"]%char) true).1
  = (build_key ["w"; "/"; "s"; "d"; "l"; "/"; "a"]%char true).1.
Proof.
  apply (uv_image_has_the_key_of_its_dl_image [] ["w"]%char ["s"]%char ["a"]%char true);
    [by left | discriminate | absent | absent | absent].
Defined.

End Paths.

(** ** What a computation keeps of the state *)

Section Keeps.
Context {S : Type} (R : S -> S -> Prop) `{!Reflexive R, !Transitive R}.

Lemma keeps_ret {A} (a : A) : keeps R (ret a).
Proof. intros s. simpl. reflexivity. Qed.

Lemma keeps_raise {A} (e : exn) : keeps R (raise (A:=A) e).
Proof. intros s. simpl. reflexivity. Qed.

Lemma keeps_lift {A} (o : outcome A) : keeps R (lift o).
Proof. intros s. simpl. reflexivity. Qed.

Lemma keeps_get : keeps R get.
Proof. intros s. simpl. reflexivity. Qed.

Lemma keeps_bind {A B} (c : py S A) (k : A -> py S B) :
  keeps R c -> (∀ a, keeps R (k a)) -> keeps R (bind c k).
Proof.
  intros Hc Hk s. unfold bind. specialize (Hc s).
  destruct (c s) as [[a|e] s']; simpl in *; [|done].
  etrans; [exact Hc | apply Hk].
Qed.

Lemma keeps_for_each {A} (xs : list A) (body : A -> py S unit) :
  (∀ x, keeps R (body x)) -> keeps R (for_each xs body).
Proof.
  intros Hbody. induction xs as [|x xs IH]; simpl.
  - apply keeps_ret.
  - apply keeps_bind; [apply Hbody | by intros _].
Qed.

Lemma keeps_for_list {A B} (f : A -> py S B) (xs : list A) :
  (∀ x, keeps R (f x)) -> keeps R (for_list f xs).
Proof.
  intros Hf. induction xs as [|x xs IH]; simpl.
  - apply keeps_ret.
  - apply keeps_bind; [apply Hf|]. intros y.
    apply keeps_bind; [exact IH|]. intros ys. apply keeps_ret.
Qed.

Lemma keeps_unchanged {A} (c : py S A) : keeps eq c -> keeps R c.
Proof. intros Hc s. rewrite <- (Hc s). reflexivity. Qed.

End Keeps.

Ltac keeps_bind := apply keeps_bind; try typeclasses eauto.
Ltac keeps_ret := apply keeps_ret; try typeclasses eauto.
Ltac keeps_raise := apply keeps_raise; try typeclasses eauto.
Ltac keeps_lift := apply keeps_lift; try typeclasses eauto.
Ltac keeps_get := apply keeps_get; try typeclasses eauto.
Ltac keeps_for_each := apply keeps_for_each; try typeclasses eauto.
Ltac keeps_for_list := apply keeps_for_list; try typeclasses eauto.
Ltac keeps_unchanged := apply keeps_unchanged; try typeclasses eauto.

Module Frames.
Import core_images.
Section Frames.
Context {Image : Type}.
Local Abbreviation obj := (pyobj Image).
Local Abbreviation batch := (core_images.batch Image).

Lemma getattr_reads_only (name : string) : keeps (S:=batch) eq (getattr_self name).
Proof. intros b. unfold getattr_self. by destruct (attrs b !! name). Qed.

Lemma load_item_reads_only (a pos : nat) : keeps (S:=batch) eq (load_item a pos).
Proof.
  intros b. unfold load_item. destruct (heap b !! a) as [l|]; [|done].
  by destruct (l !! pos).
Qed.

Lemma get_pos_reads_only (c k : string) : keeps (S:=batch) eq (get_pos c k).
Proof. by intros b. Qed.

Lemma get_components_frame (index_ : string) (comps : option names) :
  keeps (S:=batch) eq (_get_components index_ comps).
Proof.
  unfold _get_components.
  keeps_bind.
  { match goal with |- context [match ?x with Some _ => _ | None => _ end] =>
      destruct x end; [keeps_ret | keeps_raise]. }
  intros c0. keeps_bind; [apply get_pos_reads_only |].
  intros pos. keeps_bind.
  { keeps_for_list. intros c.
    keeps_bind; [apply getattr_reads_only |].
    intros a. apply load_item_reads_only. }
  intros [|r [|r' res]]; keeps_ret.
Qed.

(** X7. [_get_components] only reads: whatever the key and the component
    names, and whether it returns or raises, it leaves the batch as it
    found it. *)
Theorem get_components_reads_only (index_ : string) (comps : option names) (b : batch) :
  snd (_get_components index_ comps b) = b.
Proof. symmetry. apply get_components_frame. Qed.

(** X8. Asked for a key that is not in the Index, [_get_components] raises
    the [KeyError] of the position lookup before it reads any component,
    unless the list of component names is empty. *)
Theorem get_components_unknown_key (index_ : string) (comps : option names) (b : batch) :
  index_ ∉ index b ->
  comps ≠ Some (Names []) ->
  _get_components index_ comps b = (Raise (KeyError index_), b).
Proof.
  intros Hk Hcomps. unfold _get_components.
  assert (Hfind : find_pos (index b) index_ = Raise (KeyError index_)).
  { unfold find_pos.
    destruct (list_find (fun k => k = index_) (index b)) as [[p k]|] eqn:Hf; [|done].
    apply list_find_Some in Hf as (Hp & -> & _).
    exfalso. apply Hk. by eapply list_elem_of_lookup_2. }
  destruct comps as [[s|[|c l]]|]; try done;
    rewrite bind_run; unfold ret at 1; cbn [lookup list_lookup components];
    rewrite bind_run; unfold get_pos; by rewrite Hfind.
Qed.

End Frames.

Import Examples.

Lemma get_components_unknown_key_witness :
  _get_components "c9" None four_cores = (Raise (KeyError "c9"), four_cores).
Proof.
  apply (get_components_unknown_key "c9" None four_cores); [absent | discriminate].
Defined.

End Frames.

(** ** Padding and common shape of the images of an item *)

Module Shapes.
Import core_images Crops.
Section Shapes.
Context {Image : Type}.
Local Abbreviation obj := (pyobj Image).
Variable shape : Image -> list Z.
Variable rows : Image -> list Image.
Variable wide : obj -> Z * Z -> outcome (padded Image).

Lemma wrap64_small (z : Z) : (- 2 ^ 63 <= z < 2 ^ 63)%Z -> wrap64 z = z.
Proof.
  intros Hz. unfold wrap64.
  change (2 ^ 64)%Z with (2 * 2 ^ 63)%Z. rewrite Z.mod_small; lia.
Qed.

Lemma deficit_small (t s : Z) :
  (- 2 ^ 31 <= t < 2 ^ 31)%Z -> (0 < s < 2 ^ 31)%Z ->
  deficit t s = Z.max 0 (t - s).
Proof.
  intros Ht Hs. unfold deficit.
  assert (2 ^ 31 < 2 ^ 63)%Z by (by apply Z.pow_lt_mono_r).
  rewrite wrap64_small by lia. case_decide; lia.
Qed.

(** X10. Let the image have height [h] and width [w], both positive and
    below [2^31], with no channel axis or one non-empty channel axis, and
    let the target [(tw, th)] have entries between [-2^31] and [2^31].
    [_mirror_padding] pads by the whole deficit on both sides: it adds
    [max(0, th - h)] rows above and below and [max(0, tw - w)] columns left
    and right, and leaves the channels untouched. The result is
    [h + 2 max(0, th - h)] by [w + 2 max(0, tw - w)]: at least the target,
    and larger than it by the deficit when the image was smaller. *)
Theorem mirror_padding_adds_deficit_twice (i : Image) (h w : Z) (rest : list Z)
    (tw th : Z) :
  shape i = h :: w :: rest ->
  length rest ≤ 1 ->
  (0 < h < 2 ^ 31)%Z -> (0 < w < 2 ^ 31)%Z ->
  Forall (fun c => 0 < c)%Z rest ->
  (- 2 ^ 31 <= tw < 2 ^ 31)%Z -> (- 2 ^ 31 <= th < 2 ^ 31)%Z ->
  ∃ p,
    _mirror_padding shape wide (PObj i) (tw, th) = Ok p ∧
    source p = PObj i ∧
    pad_width p =
      take (length (shape i))
        [(Z.max 0 (th - h), Z.max 0 (th - h)); (Z.max 0 (tw - w), Z.max 0 (tw - w));
         (0, 0)]%Z ∧
    padded_shape shape p =
      Ok ((h + 2 * Z.max 0 (th - h)) :: (w + 2 * Z.max 0 (tw - w)) :: rest)%Z ∧
    (th <= h + 2 * Z.max 0 (th - h))%Z ∧
    (tw <= w + 2 * Z.max 0 (tw - w))%Z.
Proof.
  intros Hsh Hrest Hh Hw Hc Htw Hth.
  assert (Hpow : (2 ^ 31 < 2 ^ 63)%Z) by (by apply Z.pow_lt_mono_r).
  unfold _mirror_padding, pil_size, and_then. rewrite Hsh. cbn [fst snd].
  rewrite decide_True by (unfold in_int64; lia).
  rewrite !deficit_small by done.
  unfold ndim. rewrite Hsh.
  set (dh := Z.max 0 (th - h)). set (dw := Z.max 0 (tw - w)).
  assert (Hdh : (0 <= dh)%Z) by lia. assert (Hdw : (0 <= dw)%Z) by lia.
  destruct rest as [|c [|? ?]]; simpl in Hrest; [| |lia].
  - cbn [length]. rewrite decide_True by done. cbn [take].
    unfold np_pad, and_then, ndim, shape_of. rewrite Hsh. cbn [length].
    rewrite decide_True by done. cbn [zip zip_with].
    match goal with |- context [list_find ?P ?l] =>
      assert (Hfind : list_find P l = None)
        by (apply list_find_None; repeat constructor; simpl; lia);
      rewrite Hfind end.
    eexists. split; [reflexivity|]. split; [done|]. split; [done|].
    unfold padded_shape, and_then, shape_of. cbn [source pad_width]. rewrite Hsh.
    simpl. split; [|lia]. do 2 f_equal; [lia | f_equal; lia].
  - apply Forall_cons in Hc as [Hc _].
    cbn [length]. rewrite decide_False by done.
    unfold np_pad, and_then, ndim, shape_of. rewrite Hsh. cbn [length].
    rewrite decide_True by done. cbn [zip zip_with].
    match goal with |- context [list_find ?P ?l] =>
      assert (Hfind : list_find P l = None)
        by (apply list_find_None; repeat constructor; simpl; lia);
      rewrite Hfind end.
    eexists. split; [reflexivity|]. split; [done|]. split; [done|].
    unfold padded_shape, and_then, shape_of. cbn [source pad_width]. rewrite Hsh.
    simpl. split; [|lia]. do 2 f_equal; [lia | f_equal; [lia | f_equal; lia]].
Qed.

Lemma foldl_min_le (l : list Z) : ∀ x,
  (foldl Z.min x l <= x)%Z ∧ (∀ y, y ∈ l -> (foldl Z.min x l <= y)%Z) ∧
  foldl Z.min x l ∈ x :: l.
Proof.
  induction l as [|z l IH]; intros x; simpl.
  - split; [lia|]. split; [by intros y ?%not_elem_of_nil | by left].
  - destruct (IH (Z.min x z)) as (H1 & H2 & H3). split; [lia|]. split.
    + intros y [->|Hy]%elem_of_cons; [lia | by apply H2].
    + apply elem_of_cons in H3 as [->|H3].
      * destruct (Z.min_spec x z) as [[_ ->]|[_ ->]]; set_solver.
      * set_solver.
Qed.

Lemma min_star_spec (l : list Z) :
  2 ≤ length l ->
  ∃ m, min_star l = Ok m ∧ m ∈ l ∧ ∀ y, y ∈ l -> (m <= y)%Z.
Proof.
  destruct l as [|x [|z l]]; simpl; intros Hlen; [lia | lia |].
  destruct (foldl_min_le (z :: l) x) as (H1 & H2 & H3).
  exists (foldl Z.min x (z :: l)). split; [done|]. split; [done|].
  intros y [->|Hy]%elem_of_cons; [done | by apply H2].
Qed.

(** X11. For an item with at least two images, each of two or more axes,
    [fix_shape] returns every image cut from its top left corner to one
    common height and width; these are the least height and the least width
    among the images, so no image is smaller than the cut, and the batch is
    not changed. *)
Theorem fix_shape_cuts_to_common_size (index_ : string) (src : option names)
    (b : batch Image) (imgs : list obj) :
  _get_components index_ (default_src src) b = (Ok (PArr imgs), b) ->
  2 ≤ length imgs ->
  (∀ img, img ∈ imgs -> ∃ i, img = PObj i ∧ 2 ≤ length (shape i)) ->
  ∃ m0 m1,
    fix_shape shape rows index_ src b =
      (Ok ((fun img => View img [Slice 0 m0; Slice 0 m1]) <$> imgs), b) ∧
    (∀ img, img ∈ imgs ->
       ∃ e0 e1, extent shape img 0 = Ok e0 ∧ extent shape img 1 = Ok e1 ∧
                (m0 <= e0)%Z ∧ (m1 <= e1)%Z) ∧
    (∃ img, img ∈ imgs ∧ extent shape img 0 = Ok m0) ∧
    (∃ img, img ∈ imgs ∧ extent shape img 1 = Ok m1).
Proof.
  intros Hget Hlen Himgs.
  assert (Hext : ∀ k, k < 2 -> ∃ es,
            traverse (fun img => extent shape img k) imgs = Ok es ∧
            length es = length imgs ∧
            ∀ j img, imgs !! j = Some img -> ∃ e, es !! j = Some e ∧ extent shape img k = Ok e).
  { intros k Hk.
    exists ((fun img => default 0%Z (array_shape shape img !! k)) <$> imgs).
    split; [|split].
    - apply traverse_ok. intros img Himg.
      destruct (Himgs img Himg) as (i & -> & Hi). unfold extent. simpl.
      destruct (lookup_lt_is_Some_2 (shape i) k) as [e ->]; [lia | done].
    - by rewrite length_fmap.
    - intros j img Hj. rewrite list_lookup_fmap, Hj. simpl.
      destruct (Himgs img) as (i & -> & Hi); [by eapply list_elem_of_lookup_2|].
      unfold extent. simpl.
      destruct (lookup_lt_is_Some_2 (shape i) k) as [e ->]; [lia|]. by exists e. }
  destruct (Hext 0) as (hs & Hhs & Hhlen & Hhall); [lia|].
  destruct (Hext 1) as (ws & Hws & Hwlen & Hwall); [lia|].
  destruct (min_star_spec hs) as (m0 & Hm0 & Hm0in & Hm0le); [lia|].
  destruct (min_star_spec ws) as (m1 & Hm1 & Hm1in & Hm1le); [lia|].
  assert (Hside : ∀ k es m,
            (∀ j img, imgs !! j = Some img ->
                      ∃ e, es !! j = Some e ∧ extent shape img k = Ok e) ->
            length es = length imgs -> m ∈ es -> (∀ y, y ∈ es -> (m <= y)%Z) ->
            (∀ img, img ∈ imgs -> ∃ e, extent shape img k = Ok e ∧ (m <= e)%Z) ∧
            (∃ img, img ∈ imgs ∧ extent shape img k = Ok m)).
  { intros k es m Hall Hl Hin Hle. split.
    - intros img (j & Hj)%list_elem_of_lookup_1.
      destruct (Hall j img Hj) as (e & He & Hx).
      exists e. split; [done|]. apply Hle. by eapply list_elem_of_lookup_2.
    - apply list_elem_of_lookup_1 in Hin as (j & Hj).
      destruct (lookup_lt_is_Some_2 imgs j) as [img Himg].
      { rewrite <- Hl. by eapply lookup_lt_Some. }
      destruct (Hall j img Himg) as (e & He & Hx).
      exists img. split; [by eapply list_elem_of_lookup_2|]. congruence. }
  exists m0, m1. split; [|split].
  - unfold fix_shape. rewrite bind_run, Hget. unfold lift. f_equal.
    unfold iterate, and_then at 1. rewrite Hhs. unfold and_then at 1.
    rewrite Hm0. unfold and_then at 1. rewrite Hws. unfold and_then at 1.
    rewrite Hm1. unfold and_then at 1.
    apply traverse_ok. intros img Himg.
    destruct (Himgs img Himg) as (i & -> & Hi).
    unfold getitem, and_then, ndim. by rewrite decide_True.
  - intros img Himg.
    destruct (Hside 0 hs m0 Hhall Hhlen Hm0in Hm0le) as [H0 _].
    destruct (Hside 1 ws m1 Hwall Hwlen Hm1in Hm1le) as [H1 _].
    destruct (H0 img Himg) as (e0 & He0 & Hle0).
    destruct (H1 img Himg) as (e1 & He1 & Hle1). by exists e0, e1.
  - split; [by apply (Hside 0 hs m0) | by apply (Hside 1 ws m1)].
Qed.

End Shapes.

Import Examples.

Lemma mirror_padding_adds_deficit_twice_witness :
  ∃ p, _mirror_padding shape_of_image no_wide_padding dl_image (8, 12)%Z = Ok p ∧
       pad_width p = [(2, 2); (2, 2)]%Z ∧
       padded_shape shape_of_image p = Ok [14; 10]%Z.
Proof.
  destruct (mirror_padding_adds_deficit_twice shape_of_image no_wide_padding
              [10; 6]%Z 10 6 [] 8 12)
    as (p & Hrun & _ & Hpad & Hshape & _);
    [reflexivity | simpl; lia | lia | lia | constructor | lia | lia |].
  exists p. split; [exact Hrun | split; [exact Hpad | exact Hshape]].
Defined.

Lemma fix_shape_cuts_to_common_size_witness :
  ∃ m0 m1,
    fix_shape shape_of_image no_rows "c1" None four_cores =
      (Ok [View dl_image [Slice 0 m0; Slice 0 m1];
           View uv_image [Slice 0 m0; Slice 0 m1]], four_cores).
Proof.
  destruct (fix_shape_cuts_to_common_size shape_of_image no_rows "c1" None four_cores
              [dl_image; uv_image]) as (m0 & m1 & Hrun & _).
  - reflexivity.
  - simpl. lia.
  - intros img [->|Hin]%elem_of_cons.
    + exists [10; 6]%Z. split; [reflexivity | simpl; lia].
    + apply list_elem_of_singleton in Hin as ->.
      exists [12; 6]%Z. split; [reflexivity | simpl; lia].
  - exists m0, m1. exact Hrun.
Defined.

End Shapes.

(** ** Crops at the edges: items shorter than the window, one crop *)

Module CropEdges.
Import core_images Crops.
Section CropEdges.
Context {Image : Type}.
Local Abbreviation obj := (pyobj Image).
Variable shape : Image -> list Z.
Variable rows : Image -> list Image.

Lemma arange_nothing (stop step : Z) :
  (0 < step)%Z -> (stop <= 0)%Z -> arange 0 stop step = Ok [].
Proof.
  intros Hs Hstop. unfold arange. rewrite decide_False by lia.
  assert (0 <= (0 - stop) / step)%Z by (apply Z.div_pos; lia).
  replace (Z.to_nat (- ((0 - stop) / step))) with 0 by lia. done.
Qed.

(** X12. When the common length [L] of the images of an item is less than
    the window length, [crop] with a positive [step] returns no window at
    all for every image, without an error. *)
Theorem crop_of_short_item_is_empty (index_ : string) (length_ step : Z)
    (src : option names) (b : batch Image) (img0 : Image) (rest : list obj) (L : Z) :
  let imgs := PObj img0 :: rest in
  _get_components index_ (default_src src) b = (Ok (PArr imgs), b) ->
  image_length shape rows (PArr imgs) = Ok L ->
  (L < length_)%Z ->
  (0 < step)%Z ->
  crop shape rows index_ length_ step src b = (Ok ((fun _ => []) <$> imgs), b).
Proof.
  intros imgs Hget HL Hlen Hstep.
  unfold crop. rewrite bind_run, Hget. unfold lift. f_equal.
  rewrite HL. unfold and_then at 1. rewrite arange_nothing by lia.
  unfold and_then at 1. unfold first_item, iterate.
  cbn [and_then ndim length set_slices make_slices replicate].
  unfold take_crops. cbn [iterate and_then outer].
  apply (traverse_ok _ (fun _ => [])). by intros.
Qed.

(** X13. When the common length [L] of the images of an item is less than
    the window length and at least one crop is asked for, [random_crop]
    raises the [ValueError] of [np.random.randint] and leaves the batch
    unchanged. *)
Theorem random_crop_of_short_item_raises (rnd : list Z) (index_ : string)
    (length_ n_crops : Z) (src : option names) (b : batch Image)
    (img0 : Image) (rest : list obj) (L : Z) :
  let imgs := PObj img0 :: rest in
  _get_components index_ (default_src src) b = (Ok (PArr imgs), b) ->
  image_length shape rows (PArr imgs) = Ok L ->
  (L < length_)%Z ->
  (0 < n_crops)%Z ->
  random_crop shape rows rnd index_ length_ n_crops src b
    = (Raise (ValueError "low >= high"), b).
Proof.
  intros imgs Hget HL Hlen _.
  unfold random_crop. rewrite bind_run, Hget. unfold lift. f_equal.
  unfold first_item, iterate, and_then at 1 2. simpl ndim. unfold and_then at 1.
  rewrite HL. unfold and_then at 1. unfold randint.
  by rewrite decide_True by lia.
Qed.


End CropEdges.

Import Examples.

Lemma crop_of_short_item_is_empty_witness :
  crop shape_of_image no_rows "c1" 11 2 None four_cores = (Ok [[]; []], four_cores).
Proof.
  apply (crop_of_short_item_is_empty shape_of_image no_rows "c1" 11 2 None four_cores
           [10; 6]%Z [uv_image] 10); [reflexivity | reflexivity | lia | lia].
Defined.

Lemma random_crop_of_short_item_raises_witness :
  random_crop shape_of_image no_rows [5; 13; 2]%Z "c1" 11 3 None four_cores
  = (Raise (ValueError "low >= high"), four_cores).
Proof.
  apply (random_crop_of_short_item_raises shape_of_image no_rows [5; 13; 2]%Z "c1" 11 3
           None four_cores [10; 6]%Z [uv_image] 10);
    [reflexivity | reflexivity | lia | lia].
Defined.


End CropEdges.

(** ** The metaclass and the operations it binds *)

Module Binder.
Import well_batch Delegation Dispatcher FilterAssemble.
Section Binder.
Context {Well : Type}.
Local Abbreviation obj := (pyobj Well).
Local Abbreviation world := (Batchflow.world Well).
Variable Well_getattr : string -> option (obj -> call_args Well -> outcome obj).
Variable np_other : list obj -> outcome (list obj).

(** X15. When the class body already defines every abstract method of
    the bases, [WellDelegatingMeta.__new__] binds nothing: the body is left
    as it was, and [targets] is not even looked up. *)
Theorem binder_leaves_complete_body_alone (cls : string) (bases : list class)
    (ns : gmap string (attr Well)) :
  (∀ m, m ∈ abstract_methods bases -> is_Some (ns !! m)) ->
  __new__ Well_getattr cls bases ns = (Ok tt, ns).
Proof.
  intros Hall. unfold __new__.
  assert (H : ∀ m, m ∈ elements (abstract_methods bases) -> is_Some (ns !! m)).
  { intros m Hm. apply Hall. by apply elem_of_elements. }
  clear Hall. induction (elements (abstract_methods bases)) as [|x names IH]; [done|].
  simpl. rewrite bind_run. unfold bind_method at 1. rewrite bind_run. unfold get at 1.
  destruct (H x) as [v ->]; [by left|]. unfold ret at 1.
  apply IH. intros m Hm. apply H. by right.
Qed.

(** X16. When some abstract method of the bases is missing from the class
    body and the body has no [targets], [WellDelegatingMeta.__new__] raises
    [KeyError('targets')] and binds nothing. *)
Theorem binder_needs_targets (cls : string) (bases : list class)
    (ns : gmap string (attr Well)) (m : string) :
  ns !! "targets" = None ->
  m ∈ abstract_methods bases ->
  ns !! m = None ->
  __new__ Well_getattr cls bases ns = (Raise (KeyError "targets"), ns).
Proof.
  intros Htargets Hm Hnone. unfold __new__.
  apply elem_of_elements in Hm.
  induction (elements (abstract_methods bases)) as [|x names IH].
  - by apply not_elem_of_nil in Hm.
  - simpl. rewrite bind_run. unfold bind_method at 1. rewrite bind_run. unfold get at 1.
    destruct (ns !! x) as [v|] eqn:Hx.
    + unfold ret at 1. apply IH. apply elem_of_cons in Hm as [->|Hm]; [congruence | done].
    + by rewrite Htargets.
Qed.

Lemma delegator_reads_only (name index : string) (a : call_args Well) (w : world) :
  snd (delegator Well_getattr name index a w) = w.
Proof.
  symmetry. revert w. change (keeps eq (delegator Well_getattr name index a)).
  unfold delegator. keeps_bind.
  { unfold get_pos. keeps_bind; [|intros; keeps_lift].
    unfold indices. keeps_bind; [|intros; keeps_lift].
    intros w. unfold getattr_self. by destruct (self w !! "index"). }
  intros pos. destruct (Well_getattr name) as [meth|]; [|keeps_raise].
  keeps_bind.
  { intros w. unfold getattr_self. by destruct (self w !! "wells"). }
  intros wells. keeps_bind; [keeps_lift|]. intros well. keeps_lift.
Qed.

Lemma run_task_of_reader (m : mode) (c : py world obj) (w : world) :
  (∀ s, snd (c s) = s) -> run_task m c w = (Ok (task_result c w), w).
Proof.
  intros Hc. unfold task_result. specialize (Hc w).
  destruct m; simpl; unfold capture; destruct (c w) as [[v|e] w']; simpl in *;
    by subst.
Qed.

Lemma dispatch_of_readers (m : mode) (sched : list nat) (f : string -> py world obj)
    (w : world) ks paths :
  self w !! "index" = Some (PIndex ks paths) ->
  (∀ k s, snd (f k s) = s) ->
  dispatch m sched f w = (Ok ((fun k => task_result (f k) w) <$> ks), w).
Proof.
  intros Hidx Hread. unfold dispatch. rewrite bind_run, (indices_index _ _ _ Hidx).
  set (n := length ks).
  set (P := fun (done : list nat) (w' : world) (slots : list (option obj)) =>
              w' = w ∧ length slots = n ∧
              ∀ p k, ks !! p = Some k -> p ∈ done ->
                     slots !! p = Some (Some (task_result (f k) w))).
  pose proof (completion_order_perm m n sched) as Hperm.
  destruct (run_tasks_invariant m f ks P) with
    (order := completion_order m n sched) (done := @nil nat) (w := w)
    (slots := replicate n (@None obj)) as (slots & w' & Hrun & -> & Hlen & Hslots).
  - intros done p k w0 slots0 w0' Hk Hp (-> & Hlen & HP) Hrun.
    rewrite run_task_of_reader in Hrun by done. injection Hrun as <-.
    split; [done|]. split; [by rewrite length_insert|].
    intros q k' Hk' [->|Hq]%elem_of_cons.
    + rewrite list_lookup_insert_eq by (rewrite Hlen; by eapply lookup_lt_Some).
      congruence.
    + destruct (decide (q = p)) as [->|Hne]; [done|].
      rewrite list_lookup_insert_ne by done. by apply HP.
  - rewrite Hperm. apply NoDup_seq.
  - intros p Hp. rewrite Hperm in Hp. apply elem_of_seq in Hp.
    split; [apply not_elem_of_nil | unfold n in Hp; lia].
  - split; [done|]. split; [by rewrite length_replicate|]. intros p k _ Hp.
    by apply not_elem_of_nil in Hp.
  - rewrite bind_run, Hrun. unfold ret. f_equal. f_equal.
    assert (Hs : slots = Some <$> ((fun k => task_result (f k) w) <$> ks)).
    { apply list_eq. intros i. rewrite !list_lookup_fmap.
      destruct (ks !! i) as [k|] eqn:Hk; simpl.
      - apply Hslots; [done|].
        rewrite app_nil_r, elem_of_reverse, Hperm, elem_of_seq.
        apply lookup_lt_Some in Hk. unfold n. lia.
      - apply lookup_ge_None. apply lookup_ge_None in Hk. lia. }
    rewrite Hs. clear.
    induction ks as [|k ks' IH]; [done|]. simpl. f_equal. exact IH.
Qed.

(** X17. Calling a bound operation [name] on a batch whose [wells] holds
    one worker per key of the Index is the filtering assembly of the
    workers' own results, in Index order: [_filter_assemble] applied to
    [Well.name(worker, ...)] of every worker, an exception counting as the
    result of the worker that raised it. This holds in every mode and for
    every schedule of the dispatcher. *)
Theorem action_is_assembly_of_worker_results (m : mode) (sched : list nat)
    (name : string) (a : call_args Well) (w : world) ks paths (wells : list obj) meth :
  self w !! "index" = Some (PIndex ks paths) ->
  NoDup ks ->
  self w !! "wells" = Some (PArr wells) ->
  length wells = length ks ->
  Well_getattr name = Some meth ->
  call_action np_other m sched (delegator Well_getattr name) a w =
    _filter_assemble np_other ((fun worker => captured (meth worker a)) <$> wells) w.
Proof.
  intros Hidx Hnd Hwells Hlen Hmeth.
  unfold call_action, inbatch_parallel. rewrite bind_run.
  rewrite (dispatch_of_readers m sched _ w ks paths Hidx)
    by (intros; apply delegator_reads_only).
  f_equal. apply list_eq. intros i. rewrite !list_lookup_fmap.
  destruct (ks !! i) as [k|] eqn:Hk; simpl.
  - destruct (lookup_lt_is_Some_2 wells i) as [worker Hw].
    { rewrite Hlen. by eapply lookup_lt_Some. }
    rewrite Hw. simpl. f_equal. unfold task_result.
    by rewrite (delegator_calls_worker Well_getattr name w ks paths wells i k worker meth a).
  - assert (wells !! i = None) as ->; [|done].
    apply lookup_ge_None. apply lookup_ge_None in Hk. lia.
Qed.

End Binder.

Import Examples.

Lemma binder_leaves_complete_body_alone_witness :
  __new__ score_only "WellBatch" [PlainBase; AbstractWell] complete_body
  = (Ok tt, complete_body).
Proof.
  apply (binder_leaves_complete_body_alone score_only "WellBatch"
           [PlainBase; AbstractWell] complete_body).
  intros m Hm.
  assert (m = "score") as -> by (revert Hm; unfold abstract_methods; simpl; set_solver).
  by eexists.
Defined.

Lemma binder_needs_targets_witness :
  __new__ score_only "WellBatch" [AbstractWell] ∅ = (Raise (KeyError "targets"), ∅).
Proof.
  apply (binder_needs_targets score_only "WellBatch" [AbstractWell] ∅ "score");
    [reflexivity | | reflexivity].
  unfold abstract_methods. simpl. set_solver.
Defined.

Lemma action_is_assembly_of_worker_results_witness :
  call_action np_rows ThreadPool [1; 0] (delegator score_only "score")
    (CallArgs [PInt 3] []) two_loaded
  = _filter_assemble np_rows [PInt 1; PInt 1] two_loaded.
Proof.
  apply (action_is_assembly_of_worker_results score_only np_rows ThreadPool [1; 0] "score"
           (CallArgs [PInt 3] []) two_loaded ["A"; "B"] None [PObj 7; PObj 8]
           (fun _ a => Ok (PInt (Z.of_nat (length (args a))))));
    [reflexivity | | reflexivity | reflexivity | reflexivity].
  repeat (apply NoDup_cons; split; [absent|]). apply NoDup_nil_2.
Defined.

End Binder.

(** ** Construction of a [WellBatch] and [get_crops] *)

Module Construction.
Import well_batch Dispatcher WorkerInit.
Section Construction.
Context {Well Segment : Type}.
Local Abbreviation obj := (pyobj Well).
Local Abbreviation world := (Batchflow.world Well).
Variable Well_new : string -> list (string * obj) -> outcome Well.
Variable iter_level : Well -> list Segment.
Variable segment_getattr : Segment -> string -> option obj.
Variable np_other : list obj -> outcome (list obj).

Lemma filter_replicate_all {A} (P : A -> Prop) `{!∀ x, Decision (P x)} (x : A) n :
  P x -> filter P (replicate n x) = replicate n x.
Proof.
  intros Hx. induction n as [|n IH]; [done|].
  cbn [replicate]. rewrite filter_cons, IH. by case_decide.
Qed.

(** X18. Built with [preloaded], a [WellBatch] takes its wells from the
    first entry of [preloaded], one per key of the Index and in Index
    order; no worker is constructed, [src] and the keyword arguments are
    not used, and nothing is printed. *)
Theorem preloaded_wells_follow_the_index (sched : list nat) ks paths
    (pre : list (gmap string obj)) (d : gmap string obj)
    (src : option (gmap string string)) (kw : list (string * obj)) (w0 : world) :
  pre !! 0 = Some d ->
  (∀ k, k ∈ ks -> is_Some (d !! k)) ->
  __init__ Well_new sched (PIndex ks paths) (Some pre) src kw w0 =
    (Ok tt,
     World (<["wells" := PArr ((fun k => default PNone (d !! k)) <$> ks)]>
              (<["index" := PIndex ks paths]> (self w0)))
           (console w0)).
Proof.
  intros Hpre Hall. unfold __init__. rewrite bind_run.
  unfold setattr_self at 1, modify. cbv beta iota.
  rewrite bind_run. unfold lift at 1. cbn [indices_of]. cbv beta iota.
  rewrite bind_run. unfold lift at 1.
  rewrite (Crops.traverse_ok _ (fun k => default PNone (d !! k))).
  - done.
  - intros k Hk. rewrite Hpre. by destruct (Hall k Hk) as [v ->].
Qed.

(** X19. Built without [preloaded] and without [src] over a non-empty
    Index that is not a [FilesIndex], a [WellBatch] cannot be constructed:
    every item raises [ValueError('Source path is not specified')], the
    errors are printed, [RuntimeError] is raised and [wells] is left
    holding [None] for every key. *)
Theorem init_without_paths_fails (sched : list nat) ks
    (kw : list (string * obj)) (w0 : world) :
  NoDup ks ->
  ks ≠ [] ->
  let failure : obj := PExn (ValueError "Source path is not specified") in
  __init__ Well_new sched (PIndex ks None) None None kw w0 =
    (Raise (RuntimeError "Parallel action failed"),
     World (<["wells" := PArr (replicate (length ks) PNone)]>
              (<["index" := PIndex ks None]> (self w0)))
           (console w0 ++ [Print (PArr (replicate (length ks) failure)); PrintTb failure])).
Proof.
  intros Hnd Hne failure.
  set (base := <["index" := PIndex ks None]> (self w0)).
  assert (Hbase : base !! "index" = Some (PIndex ks None)) by apply lookup_insert_eq.
  assert (Hres : ((fun k => init_result (construct Well_new None (PIndex ks None) kw k)) <$> ks)
                 = replicate (length ks) failure).
  { generalize ks at 2 3. intros l.
    induction l as [|k l IH]; [done|]. rewrite fmap_cons. cbn [length replicate]. by rewrite IH. }
  assert (Hcells : ((fun k => init_cell (construct Well_new None (PIndex ks None) kw k)) <$> ks)
                   = replicate (length ks) PNone).
  { generalize ks at 2 3. intros l.
    induction l as [|k l IH]; [done|]. rewrite fmap_cons. cbn [length replicate]. by rewrite IH. }
  unfold __init__. rewrite bind_run. unfold setattr_self at 1, modify. cbv beta.
  rewrite bind_run, (len_self_index _ ks None) by exact Hbase.
  rewrite bind_run. unfold setattr_self, modify. cbv beta. cbn [self console].
  unfold inbatch_parallel. rewrite bind_run.
  rewrite (init_wells_dispatch Well_new None kw ks None base Hnd Hbase) by done.
  rewrite Hres, Hcells. cbn [console].
  unfold get_errors. rewrite filter_replicate_all by done.
  destruct ks as [|k l]; [done|].
  cbn [length replicate any_action_failed existsb is_exception orb failure head default].
  unfold bind, emit, modify, raise, id. cbv beta iota. cbn [self console].
  by rewrite <- app_assoc.
Qed.

Lemma well_crops_total attr_from (wells : list Well) :
  (∀ well segment, well ∈ wells -> segment ∈ iter_level well ->
     is_Some (segment_getattr segment attr_from)) ->
  traverse (well_crops iter_level segment_getattr attr_from) (PObj <$> wells)
  = Ok (crops_row iter_level segment_getattr attr_from <$> wells).
Proof.
  intros Hall. induction wells as [|well rest IH]; [done|].
  rewrite !fmap_cons. cbn [traverse]. rewrite IH.
  - unfold well_crops at 1.
    rewrite (Crops.traverse_ok _
      (fun segment => default PNone (segment_getattr segment attr_from))); [done|].
    intros segment Hs. by destruct (Hall well segment (list_elem_of_here _ _) Hs) as [v ->].
  - intros w' seg Hw. apply Hall. by right.
Qed.

Lemma get_crops_loop (wells : list Well) (stacked : string -> list obj)
    (ps : list (string * string)) :
  "wells" ∉ ps.*2 ->
  (∀ s well segment, s ∈ ps.*1 -> well ∈ wells -> segment ∈ iter_level well ->
     is_Some (segment_getattr segment s)) ->
  (∀ s, s ∈ ps.*1 ->
     np_array np_other (crops_row iter_level segment_getattr s <$> wells)
     = Ok (stacked s)) ->
  ∀ w : world,
  self w !! "wells" = Some (PArr (PObj <$> wells)) ->
  for_each ps (fun '(attr_from, attr_to) =>
      let* ws := getattr_self "wells" in
      match ws with
      | PArr l =>
          let* crops := lift (traverse (well_crops iter_level segment_getattr attr_from) l) in
          let* crops := lift (np_array np_other crops) in
          setattr_self attr_to (PArr crops)
      | _ => raise (TypeError "object is not iterable")
      end) w
  = (Ok tt,
     World (foldl (fun m p => <[p.2 := PArr (stacked p.1)]> m) (self w) ps)
           (console w)).
Proof.
  induction ps as [|[s d] ps IH]; intros Hd Hall Hnp w Hw.
  - by destruct w.
  - cbn [for_each]. rewrite bind_run, bind_run.
    unfold getattr_self at 1. rewrite Hw.
    rewrite bind_run. unfold lift at 1.
    rewrite well_crops_total by (intros; eapply Hall; [by left|done..]).
    rewrite bind_run. unfold lift at 1. rewrite Hnp by (by left).
    unfold setattr_self at 1, modify. cbv beta iota.
    rewrite IH.
    + done.
    + intros Hin. apply Hd. by right.
    + intros s' well seg Hs. apply Hall. by right.
    + intros s' Hs. apply Hnp. by right.
    + cbn [self]. rewrite lookup_insert_ne; [done|].
      intros ->. apply Hd. by left.
Qed.

Lemma foldl_store_other {V} (f : string * string -> V) (ps : list (string * string))
    (m : gmap string V) name :
  name ∉ ps.*2 ->
  foldl (fun m p => <[p.2 := f p]> m) m ps !! name = m !! name.
Proof.
  revert m. induction ps as [|p ps IH]; intros m Hn; [done|].
  cbn [foldl]. rewrite IH.
  - apply lookup_insert_ne. intros Heq; subst name. apply Hn. by left.
  - intros Hin. apply Hn. by right.
Qed.

Lemma foldl_store_at {V} (f : string * string -> V) (ps : list (string * string))
    (m : gmap string V) i p :
  NoDup ps.*2 ->
  ps !! i = Some p ->
  foldl (fun m p => <[p.2 := f p]> m) m ps !! p.2 = Some (f p).
Proof.
  revert m i. induction ps as [|q ps IH]; intros m i Hnd Hi; [done|].
  rewrite fmap_cons in Hnd. apply NoDup_cons in Hnd as [Hq Hnd].
  cbn [foldl]. destruct i as [|i].
  - injection Hi as ->. rewrite foldl_store_other by done. apply lookup_insert_eq.
  - by apply (IH _ i).
Qed.

(** X20. Let [src] and [dst] have the same length, the names of [dst] be
    distinct and none of them be [wells], every well be loaded, every
    segment of every well have each attribute of [src], and let
    [np.array] accept, for each attribute of [src], the list that holds one
    row per well, in the order of [wells], with that attribute of every
    segment of the well. Then [get_crops] returns, prints nothing, stores
    under each name of [dst] the array that [np.array] builds from the rows
    of the paired attribute of [src], and leaves every other attribute of
    the batch as it was. *)
Theorem get_crops_stores_one_row_per_well (src dst : str_or_iterable)
    (wells : list Well) (stacked : string -> list obj) (w : world) :
  length (to_list src) = length (to_list dst) ->
  NoDup (to_list dst) ->
  "wells" ∉ to_list dst ->
  self w !! "wells" = Some (PArr (PObj <$> wells)) ->
  (∀ s well segment, s ∈ to_list src -> well ∈ wells -> segment ∈ iter_level well ->
     is_Some (segment_getattr segment s)) ->
  (∀ s, s ∈ to_list src ->
     np_array np_other (crops_row iter_level segment_getattr s <$> wells)
     = Ok (stacked s)) ->
  ∃ w', get_crops iter_level segment_getattr np_other src dst w = (Ok tt, w')
    ∧ console w' = console w
    ∧ (∀ i s d, to_list src !! i = Some s -> to_list dst !! i = Some d ->
         self w' !! d = Some (PArr (stacked s)))
    ∧ (∀ name, name ∉ to_list dst -> self w' !! name = self w !! name).
Proof.
  intros Hlen Hnd Hw Hwells Hall Hnp. unfold get_crops.
  case_decide as Hne; [done|]. clear Hne.
  assert (H2 : (zip (to_list src) (to_list dst)).*2 = to_list dst)
    by (apply snd_zip; lia).
  assert (H1 : (zip (to_list src) (to_list dst)).*1 = to_list src)
    by (apply fst_zip; lia).
  rewrite (get_crops_loop wells stacked) by (rewrite ?H1, ?H2; done).
  eexists. split; [done|]. cbn [self console]. split; [done|]. split.
  - intros i s d Hs Hd.
    assert (Hi : zip (to_list src) (to_list dst) !! i = Some (s, d)).
    { rewrite lookup_zip_with, Hs. cbn. by rewrite Hd. }
    apply (foldl_store_at (fun p => PArr (stacked p.1)) _ _ i (s, d));
      [by rewrite H2 | done].
  - intros name Hn.
    apply (foldl_store_other (fun p => PArr (stacked p.1))).
    by rewrite H2.
Qed.

End Construction.

Import Examples.

Lemma preloaded_wells_follow_the_index_witness :
  __init__ load_well [] (PIndex ["B"; "A"] None) (Some [stored]) None [] fresh
  = (Ok tt,
     World (<["wells" := PArr [PObj "b.las"; PObj "a.las"]]>
              (<["index" := PIndex ["B"; "A"] None]> ∅)) []).
Proof.
  apply (preloaded_wells_follow_the_index load_well [] ["B"; "A"] None [stored] stored
           None [] fresh); [reflexivity|].
  intros k [->|Hin]%elem_of_cons; [by eexists|].
  apply list_elem_of_singleton in Hin as ->. by eexists.
Defined.

Lemma init_without_paths_fails_witness :
  ∃ w, __init__ load_well [] (PIndex ["A"; "B"] None) None None [] fresh
       = (Raise (RuntimeError "Parallel action failed"), w)
       ∧ self w !! "wells" = Some (PArr [PNone; PNone]).
Proof.
  eexists. split.
  - apply (init_without_paths_fails load_well [] ["A"; "B"] [] fresh); [|discriminate].
    repeat (apply NoDup_cons; split; [absent|]). apply NoDup_nil_2.
  - reflexivity.
Defined.

Lemma get_crops_stores_one_row_per_well_witness :
  ∃ w', get_crops one_segment depth_only np_rows (Str "depth") (Str "depths") loaded
        = (Ok tt, w')
        ∧ self w' !! "depths" = Some (PArr [PArr [PInt 7]])
        ∧ self w' !! "wells" = Some (PArr [PObj 7]).
Proof.
  destruct (get_crops_stores_one_row_per_well one_segment depth_only np_rows
              (Str "depth") (Str "depths") [7] (fun _ => [PArr [PInt 7]]) loaded)
    as (w' & Hrun & _ & Hput & Hkeep).
  - reflexivity.
  - repeat (apply NoDup_cons; split; [absent|]). apply NoDup_nil_2.
  - absent.
  - reflexivity.
  - intros s well seg ->%list_elem_of_singleton _ _. by eexists.
  - intros s ->%list_elem_of_singleton. reflexivity.
  - exists w'. split; [exact Hrun|]. split.
    + apply (Hput 0 "depth" "depths"); reflexivity.
    + rewrite Hkeep; [reflexivity | absent].
Defined.

End Construction.
